(** * gmprocess.metrics.transform.integrate

    A shallow embedding of [Integrate] (the time-integration transform of
    gmprocess) and of the Python objects it manipulates.  Traces, their
    sample arrays, their [stats] headers and streams are mutable Python
    objects that are passed around by reference, so they live in an explicit
    object store and every operation of the program is a computation in a
    state-and-exception monad over that store.  Samples are IEEE binary64
    numbers (numpy's float64), modelled by the kernel's primitive floats. *)

From Stdlib Require Import PrimFloat.
From Stdlib Require FloatAxioms SpecFloat FloatOps.
From stdpp Require Import base option list strings gmap.

(** ** The object store *)

(** A reference to a Python object: its index in the store. *)
Abbreviation loc := nat.

(** A value held by a header entry. *)
Inductive hval :=
  | HStr (s : string)
  | HNum (x : float)
  | HList (items : list string).

(** Modelled from the spec: the header of a trace ([trace.stats]; the trace
    class is not among the sources).  A trace has samples, a sampling
    interval, a ['units'] tag and station metadata (network, station,
    channel, start time, ...).  The header carries the sampling interval and
    a dictionary with the ['units'] entry and the metadata entries. *)
Record Stats := mkStats {
  sampling_interval : float;
  fields : gmap string hval
}.

Inductive obj :=
  | OArray (samples : list float)
  | OStats (st : Stats)
  | OTrace (data stats : loc)
  | OStream (traces : list loc).

Abbreviation heap := (list obj).

(** ** Exceptions and the monad of Python computations *)

(** Modelled from the spec: the four error kinds of the transforms.
    [AttributeError] is Python's own, raised when an object lacks the
    attribute or method that is used on it. *)
Inductive error :=
  | MissingParameter
  | InvalidParameter
  | InvalidData
  | EmptyInput
  | AttributeError.

Inductive outcome (A : Type) :=
  | Ok (a : A)
  | Raise (e : error).
Arguments Ok {A} a.
Arguments Raise {A} e.

Definition py (A : Type) : Type := heap → outcome A * heap.

#[global] Instance py_ret : MRet py := λ A a h, (Ok a, h).

(** Sequencing: an exception raised by the first computation ends the whole
    computation; the store keeps the changes made before the exception. *)
#[global] Instance py_bind : MBind py := λ A B k m h,
  match m h with
  | (Ok a, h') => k a h'
  | (Raise e, h') => (Raise e, h')
  end.

Definition raise {A} (e : error) : py A := λ h, (Raise e, h).

(** Object creation: the new object gets the next free reference. *)
Definition alloc (o : obj) : py loc := λ h, (Ok (length h), h ++ [o]).

Definition load (l : loc) : py obj :=
  λ h, match h !! l with
       | Some o => (Ok o, h)
       | None => (Raise AttributeError, h)
       end.

(** In-place update of the object behind a reference.  It is only used on a
    reference that [load] has just resolved, so the index is in range. *)
Definition store (l : loc) (o : obj) : py unit := λ h, (Ok tt, <[l:=o]> h).

(** ** Attribute access *)

(** [trace.data] *)
Definition get_data (trace : loc) : py loc :=
  o ← load trace;
  match o with
  | OTrace d _ => mret d
  | _ => raise AttributeError
  end.

(** [trace.stats] *)
Definition get_stats (trace : loc) : py loc :=
  o ← load trace;
  match o with
  | OTrace _ s => mret s
  | _ => raise AttributeError
  end.

(** [trace.data = data]: the trace object is updated in place; the array it
    held before is not touched. *)
Definition set_data (trace data : loc) : py unit :=
  o ← load trace;
  match o with
  | OTrace _ s => store trace (OTrace data s)
  | _ => raise AttributeError
  end.

(** [stats[key] = value]: the header object is updated in place. *)
Definition stats_setitem (stats : loc) (key : string) (value : hval) : py unit :=
  o ← load stats;
  match o with
  | OStats st => store stats (OStats (mkStats (sampling_interval st) (<[key:=value]> (fields st))))
  | _ => raise AttributeError
  end.

(** An attribute of a value that is an object or [None]: [None] has none of
    the attributes used here. *)
Definition attr {A} (f : loc → py A) (o : option loc) : py A :=
  match o with
  | Some l => f l
  | None => raise AttributeError
  end.

(** ** gmprocess.stationstream and gmprocess.stationtrace *)

(** Modelled from the spec: the [StationStream] constructor
    (gmprocess/stationstream.py is not among the sources).  A Stream is an
    ordered sequence of Traces; the constructor makes a new stream object
    holding the given traces in the given order. *)
Definition StationStream (traces : list loc) : py loc := alloc (OStream traces).

(** Modelled from the spec: [stream.append(trace)].  Insertion order is the
    order of the stream: the trace is added after the ones already there, in
    the stream object itself. *)
Definition append (stream trace : loc) : py unit :=
  o ← load stream;
  match o with
  | OStream ts => store stream (OStream (ts ++ [trace]))
  | _ => raise AttributeError
  end.

(** Modelled from the spec: iteration over a stream ([for trace in stream])
    visits its traces in order.  Only a source that is a stream is
    modelled. *)
Definition iter (stream : loc) : py (list loc) :=
  o ← load stream;
  match o with
  | OStream ts => mret ts
  | _ => raise AttributeError
  end.

(** Modelled from the spec: the [StationTrace] constructor
    (gmprocess/stationtrace.py is not among the sources).  The new trace
    holds the samples it is given and a copy of the header it is given
    ("station_metadata copied unchanged"). *)
Definition StationTrace (data header : loc) : py loc :=
  o ← load header;
  match o with
  | OStats st => s ← alloc (OStats st); alloc (OTrace data s)
  | _ => raise AttributeError
  end.

(** ** obspy.core.trace *)

(** The areas of the trapezoids between consecutive samples, for the step
    [dx]: [dx * (y[1:] + y[:-1]) / 2.0], where [prev] is the sample before
    the first of [ys]. *)
Fixpoint trapezoids (dx prev : float) (ys : list float) : list float :=
  match ys with
  | [] => []
  | y :: ys' => (dx * (y + prev) / 2)%float :: trapezoids dx y ys'
  end.

(** The running sums of [xs] after the sum [acc], added up from left to
    right. *)
Fixpoint cumsum_from (acc : float) (xs : list float) : list float :=
  match xs with
  | [] => []
  | x :: xs' => (acc + x)%float :: cumsum_from (acc + x)%float xs'
  end.

(** [numpy.cumsum]: the first running sum is the first element itself. *)
Definition cumsum (xs : list float) : list float :=
  match xs with
  | [] => []
  | x :: xs' => x :: cumsum_from x xs'
  end.

(** The integration rule of [trace.integrate()], ['cumtrapz']: the
    cumulative trapezoidal integral of the samples (the running sums of the
    areas of the trapezoids), with 0 put at index 0 so that the result has
    the length of the input. *)
Definition cumtrapz (dx : float) (ys : list float) : list float :=
  match ys with
  | [] => []
  | y :: ys' => 0%float :: cumsum (trapezoids dx y ys')
  end.

(** The header entries that [Integrate] and [trace.integrate()] write. *)
Definition units : string := "units".
Definition veloc : hval := HStr "veloc".
Definition processing : string := "processing".

(** ** gmprocess.metrics.transform *)

(** [for x in xs: body(x)] *)
Fixpoint for_each {A} (xs : list A) (body : A → py unit) : py unit :=
  match xs with
  | [] => mret tt
  | x :: xs' => body x;; for_each xs' body
  end.

(** The attributes of a transform object. *)
Record Transform := mkTransform {
  transform_data : loc;
  damping : option float;
  period : option float;
  times : option loc
}.

(** Modelled from the spec: the base constructor [Transform.__init__]
    (gmprocess/metrics/transform/transform.py is not among the sources)
    keeps the parameters it is given on the object, unchanged. *)
Definition Transform_init (transform_data : loc)
    (damping period : option float) (times : option loc) : py Transform :=
  mret (mkTransform transform_data damping period times).

(** An [Integrate] object: the attributes set by the base constructor and
    the [result] stream. *)
Record Integrate := mkIntegrate {
  base : Transform;
  result : loc
}.

(** ** Reading the store *)

(** What a trace is worth: its samples and its header. *)
Definition trace_value : Type := list float * Stats.

Definition read_trace (h : heap) (trace : loc) : option trace_value :=
  match h !! trace with
  | Some (OTrace d s) =>
      match h !! d, h !! s with
      | Some (OArray ys), Some (OStats st) => Some (ys, st)
      | _, _ => None
      end
  | _ => None
  end.

(** What a stream is worth: the values of its traces, in order. *)
Definition read_stream (h : heap) (stream : loc) : option (list trace_value) :=
  match h !! stream with
  | Some (OStream ts) => mapM (read_trace h) ts
  | _ => None
  end.

(** The trace has at least one sample. *)
Definition has_samples (v : trace_value) : bool :=
  match v.1 with
  | [] => false
  | _ :: _ => true
  end.

(** Every trace of the stream has at least one sample (a stream without
    traces included). *)
Definition traces_have_samples (ins : list trace_value) : bool :=
  forallb has_samples ins.

(** The header object of a trace. *)
Definition header_loc (h : heap) (trace : loc) : option loc :=
  match h !! trace with
  | Some (OTrace _ s) => Some s
  | _ => None
  end.

(** The traces [ts] are different objects with different header objects. *)
Fixpoint separate (h : heap) (ts : list loc) : bool :=
  match ts with
  | [] => true
  | t :: ts' =>
      forallb (λ t', bool_decide (t' ≠ t ∧ header_loc h t' ≠ header_loc h t)) ts'
      && separate h ts'
  end.

(** The stream lists each trace once and no two of its traces share a
    header object. *)
Definition separate_stream (h : heap) (stream : loc) : bool :=
  match h !! stream with
  | Some (OStream ts) => separate h ts
  | _ => false
  end.

(** ** Example stores *)

(** Two channels of station BK.CMB with different sampling intervals and
    unit tags. *)
Definition two_channels : heap :=
  [ OArray [0; 1; 2; 1; 0]%float;
    OStats (mkStats 1%float
      {[ units := HStr "acc"; "network" := HStr "BK";
         "station" := HStr "CMB"; "channel" := HStr "HN1" ]});
    OTrace 0 1;
    OArray [4; 4; 4]%float;
    OStats (mkStats 0.5%float
      {[ units := HStr "cm/s"; "network" := HStr "BK";
         "station" := HStr "CMB"; "channel" := HStr "HN2" ]});
    OTrace 3 4;
    OStream [2; 5] ].

Definition two_channels_value : list trace_value :=
  [ ([0; 1; 2; 1; 0]%float,
     mkStats 1%float
       {[ units := HStr "acc"; "network" := HStr "BK";
          "station" := HStr "CMB"; "channel" := HStr "HN1" ]});
    ([4; 4; 4]%float,
     mkStats 0.5%float
       {[ units := HStr "cm/s"; "network" := HStr "BK";
          "station" := HStr "CMB"; "channel" := HStr "HN2" ]}) ].

(** A stream whose second trace has a NaN sample. *)
Definition gapped : heap :=
  [ OArray [0; 1]%float;
    OStats (mkStats 1%float {[ units := HStr "acc" ]});
    OTrace 0 1;
    OArray [1; nan; 3]%float;
    OStats (mkStats 1%float {[ units := HStr "acc" ]});
    OTrace 3 4;
    OStream [2; 5] ].

Definition gapped_value : list trace_value :=
  [ ([0; 1]%float, mkStats 1%float {[ units := HStr "acc" ]});
    ([1; nan; 3]%float, mkStats 1%float {[ units := HStr "acc" ]}) ].

(** A store that holds one stream with no trace. *)
Definition empty_stream : heap := [ OStream [] ].

(** The scenario of the specification: one trace with samples 0, 1, 2, 1, 0,
    sampling interval 1.0 and acceleration units, in a stream. *)
Definition scenario : heap :=
  [ OArray [0; 1; 2; 1; 0]%float;
    OStats (mkStats 1%float {[ units := HStr "acc" ]});
    OTrace 0 1;
    OStream [2] ].

(** A stream that lists the same trace twice. *)
Definition repeated : heap :=
  [ OArray [0; 1; 2]%float;
    OStats (mkStats 1%float {[ units := HStr "acc" ]});
    OTrace 0 1;
    OStream [2; 2] ].

(** A stream of one trace that has no sample. *)
Definition silent : heap :=
  [ OArray [];
    OStats (mkStats 1%float {[ units := HStr "acc" ]});
    OTrace 0 1;
    OStream [2] ].

(** A stream whose second trace has no sample, between two traces that
    have samples. *)
Definition late_silence : heap :=
  [ OArray [0; 1]%float;
    OStats (mkStats 1%float {[ units := HStr "acc" ]});
    OTrace 0 1;
    OArray [];
    OStats (mkStats 1%float {[ units := HStr "acc" ]});
    OTrace 3 4;
    OArray [2; 2]%float;
    OStats (mkStats 1%float {[ units := HStr "acc" ]});
    OTrace 6 7;
    OStream [2; 5; 8] ].

(** A way of recording a call in the ['processing'] entry, for the examples:
    the text is added to the list the entry holds. *)
Definition record_call (text : string) (old : option hval) : hval :=
  match old with
  | Some (HList items) => HList (items ++ [text])
  | _ => HList [text]
  end.

Section integrate.

(** What [trace.integrate()] leaves in the ['processing'] entry of the
    header, given what the entry held (nothing, when there was none): obspy
    adds a text that names its own version and the call.  The library is not
    among the sources; the text is left open. *)
Variable processing_entry : option hval → hval.

(** The bookkeeping of [trace.integrate()]: the ['processing'] entry of the
    header of the trace is rewritten, in place. *)
Definition add_processing_info (trace : loc) : py unit :=
  s ← get_stats trace;
  o ← load s;
  match o with
  | OStats st =>
      stats_setitem s processing (processing_entry (fields st !! processing))
  | _ => raise AttributeError
  end.

(** [trace.integrate()], the method of the traces of an obspy Stream, the
    input the docstring of [Integrate.__init__] names.  The method works in
    place: on a trace without samples it does nothing and returns [None];
    otherwise it replaces the samples of the trace by their running integral
    over the trace's own time base (a new array; there is no test on the
    values), records the call in the header and returns the trace it was
    called on. *)
Definition integrate (trace : loc) : py (option loc) :=
  d ← get_data trace;
  od ← load d;
  match od with
  | OArray [] => mret None
  | OArray ys =>
      s ← get_stats trace;
      os ← load s;
      match os with
      | OStats st =>
          d' ← alloc (OArray (cumtrapz (sampling_interval st) ys));
          set_data trace d';;
          add_processing_info trace;;
          mret (Some trace)
      | _ => raise AttributeError
      end
  | _ => raise AttributeError
  end.

(** The body of the loop of [get_integral]: one trace of the input is
    integrated, tagged and appended to [stream]. *)
Definition get_integral_step (stream trace : loc) : py unit :=
  integrated_trace ← integrate trace;
  st ← attr get_stats integrated_trace;
  stats_setitem st units veloc;;
  data ← attr get_data integrated_trace;
  header ← attr get_stats integrated_trace;
  strace ← StationTrace data header;
  append stream strace.

(** [Integrate.get_integral] *)
Definition get_integral (self : Transform) : py loc :=
  stream ← StationStream [];
  traces ← iter (transform_data self);
  for_each traces (get_integral_step stream);;
  mret stream.

(** [Integrate.__init__]: the base constructor is called with [None] for the
    three optional parameters, whatever the caller passed. *)
Definition Integrate_init (transform_data : loc)
    (damping period : option float) (times : option loc) : py Integrate :=
  self ← Transform_init transform_data None None None;
  r ← get_integral self;
  mret (mkIntegrate self r).

(** The header of a trace after [trace.integrate()] and the ['units']
    write of [get_integral]. *)
Definition tagged (st : Stats) : Stats :=
  mkStats (sampling_interval st)
    (<[units:=veloc]>
       (<[processing:=processing_entry (fields st !! processing)]> (fields st))).

(** The value of the trace that [get_integral] makes out of a trace of
    value [v]. *)
Definition integral_of (v : trace_value) : trace_value :=
  (cumtrapz (sampling_interval v.2) v.1, tagged v.2).

(** The store after a successful step on the trace [trace] of header [s] and
    value [v]: the integral is a new array, the trace holds it, the header
    of the trace is tagged, and a copy of that header and the output trace
    are new objects; the output trace is appended to the stream. *)
Definition step_heap (h : heap) (stream : loc) (acc : list loc)
    (trace s : loc) (v : trace_value) : heap :=
  <[stream:=OStream (acc ++ [length h + 2])]>
    (<[s:=OStats (integral_of v).2]>
       (<[trace:=OTrace (length h) s]> (h ++ [OArray (integral_of v).1]))
     ++ [OStats (integral_of v).2; OTrace (length h) (length h + 1)]).

(** [v'] has as many samples as [v] and the header of [v] but for the
    ['units'] and ['processing'] entries. *)
Definition similar (v v' : trace_value) : Prop :=
  length v'.1 = length v.1 ∧
  sampling_interval v'.2 = sampling_interval v.2 ∧
  ∀ key, key ≠ units → key ≠ processing →
         fields v'.2 !! key = fields v.2 !! key.

(** [o] is what the loop makes of an input that was worth [v] when the
    invocation started. *)
Definition derived (v o : trace_value) : Prop :=
  similar v o ∧ o.1 !! 0 = Some 0%float ∧ fields o.2 !! units = Some veloc.

(** An input trace the loop has still to go through: an object older than
    the result stream, with a header older than the result stream, that
    reads as a value similar to [v]. *)
Definition pending (stream : loc) (h : heap) (trace : loc)
    (v : trace_value) : Prop :=
  trace < stream ∧
  ∃ d s v', h !! trace = Some (OTrace d s) ∧ s < stream ∧
            read_trace h trace = Some v' ∧ similar v v'.

(** An output trace: an object newer than the result stream, with samples
    and header newer than the result stream. *)
Definition fresh_trace (n : nat) (h : heap) (trace : loc) : Prop :=
  n ≤ trace ∧
  ∃ d s, h !! trace = Some (OTrace d s) ∧ n ≤ d ∧ n ≤ s.

(** An input trace that still reads as the value [v] it had when the
    invocation started. *)
Definition exact (stream : loc) (h : heap) (trace : loc)
    (v : trace_value) : Prop :=
  trace < stream ∧
  (∃ s, header_loc h trace = Some s ∧ s < stream) ∧
  read_trace h trace = Some v.

(** The traces [t] and [o] hold the same sample array and have different
    header objects. *)
Definition shares (h : heap) (t o : loc) : Prop :=
  ∃ d s s', h !! t = Some (OTrace d s) ∧ h !! o = Some (OTrace d s') ∧
            s' ≠ s.

(** The three objects a step updates in place are objects of the store and
    different from one another. *)
Definition step_ready (h : heap) (stream trace s : loc) : Prop :=
  stream < length h ∧ trace < length h ∧ s < length h ∧
  stream ≠ trace ∧ stream ≠ s ∧ trace ≠ s.

(** ** Running the primitives *)

Ltac py_unfold :=
  unfold integrate, add_processing_info, StationTrace, StationStream, append,
    iter, stats_setitem, set_data, get_data, get_stats, attr, load, store,
    alloc, raise, mbind, py_bind, mret, py_ret.

Lemma lookup_alloc (h k : heap) (i : nat) :
  (h ++ k) !! (length h + i) = k !! i.
Proof. rewrite lookup_app_r; [|lia]. f_equal. lia. Qed.

Lemma bind_ok {A B} (m : py A) (k : A → py B) (h h' : heap) (a : A) :
  m h = (Ok a, h') → (m ≫= k) h = k a h'.
Proof. intros Hm. unfold mbind, py_bind. by rewrite Hm. Qed.

Lemma bind_raise {A B} (m : py A) (k : A → py B) (h h' : heap) (e : error) :
  m h = (Raise e, h') → (m ≫= k) h = (Raise e, h').
Proof. intros Hm. unfold mbind, py_bind. by rewrite Hm. Qed.

Lemma get_data_run (h : heap) (trace d s : loc) :
  h !! trace = Some (OTrace d s) → get_data trace h = (Ok d, h).
Proof. intros Ht. py_unfold. simpl. by rewrite Ht. Qed.

Lemma get_stats_run (h : heap) (trace d s : loc) :
  h !! trace = Some (OTrace d s) → get_stats trace h = (Ok s, h).
Proof. intros Ht. py_unfold. simpl. by rewrite Ht. Qed.

Lemma set_data_run (h : heap) (trace d s d' : loc) :
  h !! trace = Some (OTrace d s) →
  set_data trace d' h = (Ok tt, <[trace:=OTrace d' s]> h).
Proof. intros Ht. py_unfold. simpl. by rewrite Ht. Qed.

Lemma stats_setitem_run (h : heap) (s : loc) (st : Stats) (k : string) (v : hval) :
  h !! s = Some (OStats st) →
  stats_setitem s k v h =
  (Ok tt, <[s:=OStats (mkStats (sampling_interval st) (<[k:=v]> (fields st)))]> h).
Proof. intros Hs. py_unfold. simpl. by rewrite Hs. Qed.

Lemma add_processing_info_run (h : heap) (trace d s : loc) (st : Stats) :
  h !! trace = Some (OTrace d s) → h !! s = Some (OStats st) →
  add_processing_info trace h =
  (Ok tt, <[s:=OStats (mkStats (sampling_interval st)
                (<[processing:=processing_entry (fields st !! processing)]>
                   (fields st)))]> h).
Proof.
  intros Ht Hs. unfold add_processing_info.
  erewrite bind_ok by by eapply get_stats_run.
  erewrite bind_ok by (unfold load; by rewrite Hs).
  by apply stats_setitem_run.
Qed.

Lemma StationTrace_run (h : heap) (d s : loc) (st : Stats) :
  h !! s = Some (OStats st) →
  StationTrace d s h =
  (Ok (length h + 1), h ++ [OStats st; OTrace d (length h)]).
Proof.
  intros Hs. py_unfold. simpl. rewrite Hs. simpl.
  rewrite length_app, <- app_assoc. done.
Qed.

Lemma append_run (h : heap) (stream trace : loc) (ts : list loc) :
  h !! stream = Some (OStream ts) →
  append stream trace h = (Ok tt, <[stream:=OStream (ts ++ [trace])]> h).
Proof. intros Hs. py_unfold. simpl. by rewrite Hs. Qed.

Lemma iter_run (h : heap) (stream : loc) (ts : list loc) :
  h !! stream = Some (OStream ts) → iter stream h = (Ok ts, h).
Proof. intros Hs. py_unfold. simpl. by rewrite Hs. Qed.

(** [trace.integrate()] on a trace that has samples. *)
Lemma integrate_run (h : heap) (trace d s : loc) (ys : list float) (st : Stats) :
  h !! trace = Some (OTrace d s) → h !! d = Some (OArray ys) →
  h !! s = Some (OStats st) → ys ≠ [] → trace ≠ s →
  integrate trace h =
  (Ok (Some trace),
   <[s:=OStats (mkStats (sampling_interval st)
           (<[processing:=processing_entry (fields st !! processing)]>
              (fields st)))]>
     (<[trace:=OTrace (length h) s]>
        (h ++ [OArray (cumtrapz (sampling_interval st) ys)]))).
Proof.
  intros Ht Hd Hs Hys Hne. unfold integrate.
  erewrite bind_ok by by eapply get_data_run.
  erewrite bind_ok by (unfold load; by rewrite Hd).
  destruct ys as [|y ys]; [done|].
  erewrite bind_ok by by eapply get_stats_run.
  erewrite bind_ok by (unfold load; by rewrite Hs).
  cbv beta iota.
  erewrite bind_ok by done.
  erewrite bind_ok by by eapply set_data_run, lookup_app_l_Some.
  assert (trace < length (h ++ [OArray (cumtrapz (sampling_interval st) (y :: ys))]))
    as Hlt by (rewrite length_app; apply lookup_lt_Some in Ht; lia).
  erewrite bind_ok; [done|].
  eapply add_processing_info_run.
  - by apply list_lookup_insert_eq.
  - rewrite list_lookup_insert_ne by done. by apply lookup_app_l_Some.
Qed.

(** [trace.integrate()] on a trace without samples. *)
Lemma integrate_run_no_data (h : heap) (trace d s : loc) :
  h !! trace = Some (OTrace d s) → h !! d = Some (OArray []) →
  integrate trace h = (Ok None, h).
Proof.
  intros Ht Hd. unfold integrate.
  erewrite bind_ok by by eapply get_data_run.
  erewrite bind_ok by (unfold load; by rewrite Hd). done.
Qed.

Lemma has_samples_nonempty (v : trace_value) :
  has_samples v = true ↔ v.1 ≠ [].
Proof. unfold has_samples. by destruct v.1. Qed.

(** A step on a trace that has samples. *)
Lemma get_integral_step_ok (h : heap) (stream trace d s : loc)
    (acc : list loc) (v : trace_value) :
  h !! stream = Some (OStream acc) →
  h !! trace = Some (OTrace d s) →
  h !! d = Some (OArray v.1) → h !! s = Some (OStats v.2) →
  has_samples v = true →
  get_integral_step stream trace h
  = (Ok tt, step_heap h stream acc trace s v).
Proof.
  intros Hstream Ht Hd Hs Hys%has_samples_nonempty.
  assert (trace ≠ s) as Hts by congruence.
  assert (stream ≠ s) as Hss by congruence.
  assert (stream ≠ trace) as Hst by congruence.
  pose proof (lookup_lt_Some _ _ _ Ht) as Hlt.
  pose proof (lookup_lt_Some _ _ _ Hs) as Hls.
  unfold get_integral_step.
  erewrite bind_ok by by eapply integrate_run.
  set (h1 := <[trace:=OTrace (length h) s]>
               (h ++ [OArray (cumtrapz (sampling_interval v.2) v.1)])).
  assert (length h1 = length h + 1) as Hlen1
    by (unfold h1; by rewrite length_insert, length_app).
  assert (h1 !! trace = Some (OTrace (length h) s)) as Ht1.
  { apply list_lookup_insert_eq. rewrite length_app. lia. }
  simpl attr.
  erewrite bind_ok.
  2: { eapply get_stats_run. by rewrite list_lookup_insert_ne. }
  erewrite bind_ok.
  2: { eapply stats_setitem_run. apply list_lookup_insert_eq. lia. }
  rewrite list_insert_insert_eq. simpl.
  erewrite bind_ok.
  2: { eapply get_data_run. by rewrite list_lookup_insert_ne. }
  erewrite bind_ok.
  2: { eapply get_stats_run. by rewrite list_lookup_insert_ne. }
  erewrite bind_ok.
  2: { eapply StationTrace_run. apply list_lookup_insert_eq. lia. }
  rewrite length_insert, Hlen1.
  erewrite append_run.
  2: { apply lookup_app_l_Some. rewrite list_lookup_insert_ne by done.
       unfold h1. rewrite list_lookup_insert_ne by done.
       by apply lookup_app_l_Some. }
  unfold step_heap, integral_of, tagged, h1. simpl.
  by replace (length h + 1 + 1) with (length h + 2) by lia.
Qed.

(** A step on an element that does not read as a trace, or that is a trace
    without samples: the store is not changed. *)
Lemma get_integral_step_fails (h : heap) (stream trace : loc) :
  (∀ v, read_trace h trace = Some v → has_samples v = false) →
  get_integral_step stream trace h = (Raise AttributeError, h).
Proof.
  intros Hbad. unfold get_integral_step.
  destruct (h !! trace) as [[ys|st|d s|ts]|] eqn:Ht;
    try (erewrite bind_raise; [done|];
         unfold integrate; erewrite bind_raise; [done|];
         py_unfold; simpl; by rewrite Ht).
  destruct (h !! d) as [[[|y ys]|st|d' s'|ts]|] eqn:Hd;
    try (erewrite bind_raise; [done|];
         unfold integrate; erewrite bind_ok by (by eapply get_data_run);
         py_unfold; simpl; by rewrite Hd).
  - erewrite bind_ok by by eapply integrate_run_no_data. done.
  - erewrite bind_raise; [done|]. unfold integrate.
    erewrite bind_ok by by eapply get_data_run.
    erewrite bind_ok by (unfold load; by rewrite Hd).
    cbv beta iota.
    erewrite bind_ok by by eapply get_stats_run.
    destruct (h !! s) as [[ys'|st|d' s'|ts]|] eqn:Hs;
      try (py_unfold; simpl; by rewrite Hs).
    specialize (Hbad (y :: ys, st)). unfold read_trace in Hbad.
    rewrite Ht, Hd, Hs in Hbad. by specialize (Hbad eq_refl).
Qed.

(** ** The store after a step *)

Lemma step_ready_intro (h : heap) (stream trace d s : loc)
    (acc : list loc) (st : Stats) :
  h !! stream = Some (OStream acc) → h !! trace = Some (OTrace d s) →
  h !! s = Some (OStats st) → step_ready h stream trace s.
Proof.
  intros Hstream Ht Hs. unfold step_ready.
  pose proof (lookup_lt_Some _ _ _ Hstream).
  pose proof (lookup_lt_Some _ _ _ Ht).
  pose proof (lookup_lt_Some _ _ _ Hs).
  repeat split; (done || congruence).
Qed.

Lemma step_heap_length (h : heap) (stream : loc) (acc : list loc)
    (trace s : loc) (v : trace_value) :
  length (step_heap h stream acc trace s v) = length h + 3.
Proof.
  unfold step_heap.
  rewrite length_insert, length_app, !length_insert, length_app. simpl. lia.
Qed.

Lemma step_heap_stream (h : heap) (stream : loc) (acc : list loc)
    (trace s : loc) (v : trace_value) :
  step_ready h stream trace s →
  step_heap h stream acc trace s v !! stream
  = Some (OStream (acc ++ [length h + 2])).
Proof.
  intros (Hstream & _). apply list_lookup_insert_eq.
  rewrite length_app, !length_insert, length_app. simpl. lia.
Qed.

Lemma step_heap_trace (h : heap) (stream : loc) (acc : list loc)
    (trace s : loc) (v : trace_value) :
  step_ready h stream trace s →
  step_heap h stream acc trace s v !! trace = Some (OTrace (length h) s).
Proof.
  intros (_ & Ht & _ & Hst & _ & Hts). unfold step_heap.
  rewrite list_lookup_insert_ne by done.
  apply lookup_app_l_Some. rewrite list_lookup_insert_ne by done.
  apply list_lookup_insert_eq. rewrite length_app. lia.
Qed.

Lemma step_heap_header (h : heap) (stream : loc) (acc : list loc)
    (trace s : loc) (v : trace_value) :
  step_ready h stream trace s →
  step_heap h stream acc trace s v !! s = Some (OStats (integral_of v).2).
Proof.
  intros (_ & _ & Hs & _ & Hss & _). unfold step_heap.
  rewrite list_lookup_insert_ne by done.
  apply lookup_app_l_Some. apply list_lookup_insert_eq.
  rewrite length_insert, length_app. lia.
Qed.

Lemma step_heap_new (h : heap) (stream : loc) (acc : list loc)
    (trace s : loc) (v : trace_value) (i : nat) :
  step_ready h stream trace s →
  step_heap h stream acc trace s v !! (length h + i)
  = [OArray (integral_of v).1; OStats (integral_of v).2;
     OTrace (length h) (length h + 1)] !! i.
Proof.
  intros (Hstream & Ht & Hs & _). unfold step_heap.
  rewrite list_lookup_insert_ne by lia.
  destruct i as [|i].
  - rewrite Nat.add_0_r. rewrite lookup_app_l
      by (rewrite !length_insert, length_app; simpl; lia).
    rewrite !list_lookup_insert_ne by lia.
    by rewrite list_lookup_middle.
  - rewrite lookup_app_r
      by (rewrite !length_insert, length_app; simpl; lia).
    rewrite !length_insert, length_app. simpl.
    by replace (length h + S i - (length h + 1)) with i by lia.
Qed.

Lemma step_heap_other (h : heap) (stream : loc) (acc : list loc)
    (trace s : loc) (v : trace_value) (l : loc) (o : obj) :
  l ≠ stream → l ≠ trace → l ≠ s →
  h !! l = Some o → step_heap h stream acc trace s v !! l = Some o.
Proof.
  intros Hl1 Hl2 Hl3 Hl. unfold step_heap.
  rewrite list_lookup_insert_ne by done.
  apply lookup_app_l_Some. rewrite !list_lookup_insert_ne by done.
  by apply lookup_app_l_Some.
Qed.

(** The output trace of a step reads as the integral of the value the input
    trace had, and so does the input trace itself. *)
Lemma step_heap_read_output (h : heap) (stream : loc) (acc : list loc)
    (trace s : loc) (v : trace_value) :
  step_ready h stream trace s →
  read_trace (step_heap h stream acc trace s v) (length h + 2)
  = Some (integral_of v).
Proof.
  intros Hr. unfold read_trace.
  pose proof (step_heap_new h stream acc trace s v 0 Hr) as H0.
  rewrite Nat.add_0_r in H0.
  rewrite (step_heap_new _ _ _ _ _ _ 2) by done. simpl.
  rewrite H0, (step_heap_new _ _ _ _ _ _ 1) by done. reflexivity.
Qed.

Lemma step_heap_read_input (h : heap) (stream : loc) (acc : list loc)
    (trace s : loc) (v : trace_value) :
  step_ready h stream trace s →
  read_trace (step_heap h stream acc trace s v) trace
  = Some (integral_of v).
Proof.
  intros Hr. unfold read_trace.
  pose proof (step_heap_new h stream acc trace s v 0 Hr) as H0.
  rewrite Nat.add_0_r in H0.
  rewrite step_heap_trace, H0, step_heap_header by done. reflexivity.
Qed.

(** ** Reading the store before and after a step *)

Lemma read_trace_inv (h : heap) (trace : loc) (v : trace_value) :
  read_trace h trace = Some v →
  ∃ d s, h !! trace = Some (OTrace d s) ∧
         h !! d = Some (OArray v.1) ∧ h !! s = Some (OStats v.2).
Proof.
  unfold read_trace.
  destruct (h !! trace) as [[ys|st|d s|ts]|] eqn:Ht; try done.
  destruct (h !! d) as [[ys|st|d' s'|ts]|] eqn:Hd; try done.
  destruct (h !! s) as [[ys'|st|d' s'|ts]|] eqn:Hs; try done.
  intros [= <-]. by exists d, s.
Qed.

Lemma read_trace_intro (h : heap) (trace d s : loc) (v : trace_value) :
  h !! trace = Some (OTrace d s) →
  h !! d = Some (OArray v.1) → h !! s = Some (OStats v.2) →
  read_trace h trace = Some v.
Proof.
  intros Ht Hd Hs. unfold read_trace. rewrite Ht, Hd, Hs. by destruct v.
Qed.

(** A trace reads the same in a store that holds the trace, its samples and
    its header as they were. *)
Lemma read_trace_preserved (h h' : heap) (trace : loc) (v : trace_value) :
  read_trace h trace = Some v →
  (∀ l o, l = trace ∨ header_loc h trace = Some l ∨
          (∃ ys, o = OArray ys) →
          h !! l = Some o → h' !! l = Some o) →
  read_trace h' trace = Some v.
Proof.
  intros (d & s & Ht & Hd & Hs)%read_trace_inv Hk.
  apply (read_trace_intro h' trace d s).
  - apply Hk; [by left|done].
  - apply Hk; [right; right; by eexists|done].
  - apply Hk; [|done]. right; left. unfold header_loc. by rewrite Ht.
Qed.

Lemma header_loc_Some (h : heap) (trace s : loc) :
  header_loc h trace = Some s ↔ ∃ d, h !! trace = Some (OTrace d s).
Proof.
  unfold header_loc. split.
  - destruct (h !! trace) as [[ys|st|d s'|ts]|]; try done.
    intros [= ->]. by exists d.
  - intros [d ->]. done.
Qed.

Lemma similar_refl (v : trace_value) : similar v v.
Proof. by repeat split. Qed.

Lemma similar_trans (v1 v2 v3 : trace_value) :
  similar v1 v2 → similar v2 v3 → similar v1 v3.
Proof.
  intros (Hl1 & Hd1 & Hf1) (Hl2 & Hd2 & Hf2).
  repeat split; [congruence..|].
  intros key Hu Hp. by rewrite Hf2, Hf1.
Qed.

Lemma trapezoids_length (dx prev : float) (ys : list float) :
  length (trapezoids dx prev ys) = length ys.
Proof.
  revert prev. induction ys as [|y ys IH]; intros prev; simpl;
    [done|by rewrite IH].
Qed.

Lemma cumsum_from_length (acc : float) (xs : list float) :
  length (cumsum_from acc xs) = length xs.
Proof.
  revert acc. induction xs as [|x xs IH]; intros acc; simpl;
    [done|by rewrite IH].
Qed.

Lemma cumsum_length (xs : list float) : length (cumsum xs) = length xs.
Proof. destruct xs as [|x xs]; simpl; [done|by rewrite cumsum_from_length]. Qed.

Lemma cumtrapz_length (dx : float) (ys : list float) :
  length (cumtrapz dx ys) = length ys.
Proof.
  destruct ys as [|y ys]; simpl; [done|].
  by rewrite cumsum_length, trapezoids_length.
Qed.

Lemma cumtrapz_head (dx : float) (ys : list float) :
  ys ≠ [] → cumtrapz dx ys !! 0 = Some 0%float.
Proof. by destruct ys. Qed.

(** ** Samples that are not finite *)

(** A float is not finite exactly when it is a NaN or an infinity of the
    binary64 format. *)
Lemma is_finite_false (x : float) :
  is_finite x = false ↔
  FloatOps.Prim2SF x = SpecFloat.S754_nan ∨
  ∃ b, FloatOps.Prim2SF x = SpecFloat.S754_infinity b.
Proof.
  unfold is_finite, is_nan, is_infinity.
  rewrite !FloatAxioms.eqb_spec, FloatAxioms.abs_spec.
  change (FloatOps.Prim2SF infinity) with (SpecFloat.S754_infinity false).
  destruct (FloatOps.Prim2SF x) as [b|b| |b m e]; simpl.
  - split; [done|]. intros [?|[? ?]]; congruence.
  - split; [eauto|]. intros _. by destruct b.
  - split; [eauto|done].
  - unfold SpecFloat.SFeqb. simpl.
    rewrite Z.compare_refl, Pos.compare_cont_refl.
    split; [by destruct b|]. intros [?|[? ?]]; congruence.
Qed.

Lemma add_non_finite_r (x y : float) :
  is_finite y = false → is_finite (x + y) = false.
Proof.
  rewrite !is_finite_false, FloatAxioms.add_spec.
  unfold FloatAxioms.SF64add.
  intros [Hy|[b Hy]]; rewrite Hy;
    destruct (FloatOps.Prim2SF x) as [bx|bx| |bx mx ex]; simpl; eauto.
  destruct bx, b; eauto.
Qed.

Lemma add_non_finite_l (x y : float) :
  is_finite x = false → is_finite (x + y) = false.
Proof.
  rewrite !is_finite_false, FloatAxioms.add_spec.
  unfold FloatAxioms.SF64add.
  intros [Hx|[b Hx]]; rewrite Hx;
    destruct (FloatOps.Prim2SF y) as [bx|bx| |bx mx ex]; simpl; eauto.
  destruct b, bx; eauto.
Qed.

Lemma mul_non_finite_r (x y : float) :
  is_finite y = false → is_finite (x * y) = false.
Proof.
  rewrite !is_finite_false, FloatAxioms.mul_spec.
  unfold FloatAxioms.SF64mul.
  intros [Hy|[b Hy]]; rewrite Hy;
    destruct (FloatOps.Prim2SF x) as [bx|bx| |bx mx ex]; simpl; eauto.
Qed.

Lemma half_non_finite (x : float) :
  is_finite x = false → is_finite (x / 2) = false.
Proof.
  rewrite !is_finite_false, FloatAxioms.div_spec.
  unfold FloatAxioms.SF64div.
  intros [Hx|[b Hx]]; rewrite Hx; vm_compute; eauto.
Qed.

Lemma trapezoids_non_finite (dx prev : float) (ys : list float) (i : nat)
    (y : float) :
  ys !! i = Some y → is_finite y = false →
  ∃ a, trapezoids dx prev ys !! i = Some a ∧ is_finite a = false.
Proof.
  revert prev i. induction ys as [|y0 ys IH]; intros prev [|i] Hi Hy;
    try done; simpl in *.
  - injection Hi as ->. eexists. split; [done|].
    by apply half_non_finite, mul_non_finite_r, add_non_finite_l.
  - by apply IH.
Qed.

Lemma trapezoids_non_finite_prev (dx prev y : float) (ys : list float) :
  is_finite prev = false →
  ∃ a, trapezoids dx prev (y :: ys) !! 0 = Some a ∧ is_finite a = false.
Proof.
  intros Hp. eexists. split; [done|].
  by apply half_non_finite, mul_non_finite_r, add_non_finite_r.
Qed.

Lemma cumsum_from_non_finite_acc (acc : float) (xs : list float) :
  is_finite acc = false →
  Forall (λ z, is_finite z = false) (cumsum_from acc xs).
Proof.
  revert acc. induction xs as [|x xs IH]; intros acc Hacc; simpl;
    constructor; [|apply IH]; by apply add_non_finite_l.
Qed.

Lemma cumsum_from_non_finite (acc : float) (xs : list float) (i : nat)
    (x : float) :
  xs !! i = Some x → is_finite x = false →
  ∀ j z, i ≤ j → cumsum_from acc xs !! j = Some z → is_finite z = false.
Proof.
  revert acc i. induction xs as [|x0 xs IH]; intros acc [|i] Hi Hx j z Hij Hz;
    try done; simpl in *.
  - injection Hi as ->.
    assert (Forall (λ z, is_finite z = false)
              ((acc + x)%float :: cumsum_from (acc + x)%float xs)) as HF.
    { constructor; [by apply add_non_finite_r|].
      by apply cumsum_from_non_finite_acc, add_non_finite_r. }
    rewrite Forall_lookup in HF. by eapply HF.
  - destruct j as [|j]; [lia|]. simpl in Hz.
    eapply (IH _ i); [done..| |done]. lia.
Qed.

Lemma cumsum_non_finite (xs : list float) (i : nat) (x : float) :
  xs !! i = Some x → is_finite x = false →
  ∀ j z, i ≤ j → cumsum xs !! j = Some z → is_finite z = false.
Proof.
  destruct xs as [|x0 xs]; [done|]. intros Hi Hx j z Hij Hz.
  destruct i as [|i]; simpl in *.
  - injection Hi as ->. destruct j as [|j]; simpl in Hz; [congruence|].
    assert (Forall (λ z, is_finite z = false) (cumsum_from x xs)) as HF
      by by apply cumsum_from_non_finite_acc.
    rewrite Forall_lookup in HF. by eapply HF.
  - destruct j as [|j]; [lia|]. simpl in Hz.
    eapply (cumsum_from_non_finite _ _ i); [done..| |done]. lia.
Qed.

(** Non-finite samples spread: from the index of a sample that is not
    finite on, index 0 apart, no sample of the integral is finite. *)
Lemma cumtrapz_non_finite (dx : float) (ys : list float) (i : nat) (y : float) :
  ys !! i = Some y → is_finite y = false →
  ∀ j z, i ≤ j → 1 ≤ j → cumtrapz dx ys !! j = Some z → is_finite z = false.
Proof.
  intros Hi Hy j z Hij Hj Hz.
  destruct ys as [|y0 ys]; [done|].
  destruct j as [|j]; [lia|]. simpl in Hz.
  destruct i as [|i]; simpl in Hi.
  - injection Hi as ->. destruct ys as [|y1 ys]; [done|].
    destruct (trapezoids_non_finite_prev dx y y1 ys Hy) as (a & Ha & Hfa).
    apply (cumsum_non_finite _ 0 a Ha Hfa j z); [lia|done].
  - destruct (trapezoids_non_finite dx y0 ys i y Hi Hy) as (a & Ha & Hfa).
    apply (cumsum_non_finite _ i a Ha Hfa j z); [lia|done].
Qed.

(** ** Values before and after a step *)

Lemma similar_tagged (ys ys' : list float) (st : Stats) :
  length ys' = length ys → similar (ys, st) (ys', tagged st).
Proof.
  intros Hlen. repeat split; [done|]. intros key Hu Hp. simpl.
  by rewrite !lookup_insert_ne.
Qed.

Lemma similar_integral (v : trace_value) : similar v (integral_of v).
Proof.
  destruct v as [ys st]. apply similar_tagged. apply cumtrapz_length.
Qed.

Lemma similar_has_samples (v v' : trace_value) :
  similar v v' → has_samples v = true → has_samples v' = true.
Proof.
  intros (Hlen & _). unfold has_samples.
  destruct v.1, v'.1; simpl in *; done.
Qed.

Lemma derived_integral (v v' : trace_value) :
  similar v v' → has_samples v = true → derived v (integral_of v').
Proof.
  intros Hs Hv. split; [|split].
  - eauto using similar_trans, similar_integral.
  - apply cumtrapz_head, has_samples_nonempty.
    eauto using similar_has_samples.
  - simpl. apply lookup_insert_eq.
Qed.

(** A step on anything: either it fails and leaves the store as it was, or
    the element is a trace that has samples and the store is the one
    [step_heap] describes. *)
Lemma get_integral_step_cases (h : heap) (stream trace : loc) (acc : list loc) :
  h !! stream = Some (OStream acc) →
  get_integral_step stream trace h = (Raise AttributeError, h) ∨
  ∃ d s v, h !! trace = Some (OTrace d s) ∧
           h !! d = Some (OArray v.1) ∧ h !! s = Some (OStats v.2) ∧
           has_samples v = true ∧
           get_integral_step stream trace h
           = (Ok tt, step_heap h stream acc trace s v).
Proof.
  intros Hstream.
  destruct (read_trace h trace) as [v|] eqn:Hv.
  - destruct (has_samples v) eqn:Hsam.
    + right. apply read_trace_inv in Hv as (d & s & Ht & Hd & Hs).
      exists d, s, v. eauto 10 using get_integral_step_ok.
    + left. apply get_integral_step_fails. congruence.
  - left. apply get_integral_step_fails. congruence.
Qed.

(** The header object of a trace never changes; new traces have new
    headers. *)
Lemma header_loc_step (h : heap) (stream : loc) (acc : list loc)
    (trace d s : loc) (v : trace_value) (t l : loc) :
  step_ready h stream trace s → h !! trace = Some (OTrace d s) →
  header_loc (step_heap h stream acc trace s v) t = Some l →
  l < length h → header_loc h t = Some l.
Proof.
  intros Hr Ht Hl Hlt. pose proof Hr as (Hst & Htr & Hs & Hne1 & Hne2 & Hne3).
  destruct (decide (t = trace)) as [->|Hn1].
  { unfold header_loc in *. rewrite step_heap_trace in Hl by done.
    by rewrite Ht. }
  destruct (decide (t = stream)) as [->|Hn2].
  { unfold header_loc in Hl. by rewrite step_heap_stream in Hl. }
  destruct (decide (t = s)) as [->|Hn3].
  { unfold header_loc in Hl. by rewrite step_heap_header in Hl. }
  destruct (decide (t < length h)) as [Hin|Hout].
  - destruct (lookup_lt_is_Some_2 h t Hin) as [o Ho].
    unfold header_loc in *.
    by rewrite (step_heap_other _ _ _ _ _ _ _ o) in Hl by done; rewrite Ho.
  - unfold header_loc in Hl.
    replace t with (length h + (t - length h)) in Hl by lia.
    rewrite step_heap_new in Hl by done.
    destruct (t - length h) as [|[|[|i]]]; simpl in Hl; try done.
    injection Hl as <-. lia.
Qed.

Lemma header_loc_step_eq (h : heap) (stream : loc) (acc : list loc)
    (trace d s : loc) (v : trace_value) (st : Stats) (t dt ht : loc) :
  h !! stream = Some (OStream acc) → h !! trace = Some (OTrace d s) →
  h !! s = Some (OStats st) → h !! t = Some (OTrace dt ht) →
  header_loc (step_heap h stream acc trace s v) t = Some ht.
Proof.
  intros Hstream Ht Hs Htt.
  pose proof (step_ready_intro _ _ _ _ _ _ _ Hstream Ht Hs) as Hr.
  unfold header_loc.
  destruct (decide (t = trace)) as [->|Hn1].
  { rewrite step_heap_trace by done. congruence. }
  rewrite (step_heap_other _ _ _ _ _ _ _ (OTrace dt ht));
    (done || congruence).
Qed.

(** Sample arrays are never written: an array of the store is the same
    array after a step. *)
Lemma step_heap_array (h : heap) (stream : loc) (acc : list loc)
    (trace d s : loc) (v : trace_value) (st : Stats) (l : loc)
    (ys : list float) :
  h !! stream = Some (OStream acc) → h !! trace = Some (OTrace d s) →
  h !! s = Some (OStats st) → h !! l = Some (OArray ys) →
  step_heap h stream acc trace s v !! l = Some (OArray ys).
Proof. intros Hstream Ht Hs Hl. apply step_heap_other; congruence. Qed.

(** ** What the loop keeps *)

(** Whatever the loop does, and whether it ends normally or not, it leaves
    as it was every object that is neither the result stream, nor an element
    of the list it goes through, nor the header of one of them. *)
Lemma for_each_step_keeps (stream : loc) (ts : list loc) :
  ∀ (h : heap) (acc : list loc) (l : loc) (o : obj),
  h !! stream = Some (OStream acc) →
  l ≠ stream → l ∉ ts → (∀ t, t ∈ ts → header_loc h t ≠ Some l) →
  h !! l = Some o →
  (for_each ts (get_integral_step stream) h).2 !! l = Some o.
Proof.
  induction ts as [|trace ts IH]; intros h acc l o Hstream Hl1 Hl2 Hl3 Hl;
    [done|].
  apply not_elem_of_cons in Hl2 as [Hlt Hl2].
  change (for_each (trace :: ts) (get_integral_step stream))
    with (get_integral_step stream trace;;
          for_each ts (get_integral_step stream)).
  destruct (get_integral_step_cases h stream trace acc Hstream)
    as [Hfail|(d & s & v & Ht & Hd & Hs & Hsam & Hok)].
  { by erewrite bind_raise by done. }
  erewrite bind_ok by done.
  pose proof (step_ready_intro _ _ _ _ _ _ _ Hstream Ht Hs) as Hr.
  assert (l ≠ s) as Hls.
  { intros ->. apply (Hl3 trace); [left|]. unfold header_loc. by rewrite Ht. }
  eapply IH; [by apply step_heap_stream|done|done| |by apply step_heap_other].
  intros t Hin Hhdr. apply (Hl3 t); [by right|].
  eapply header_loc_step; [done..|]. by eapply lookup_lt_Some.
Qed.

(** A pending trace is still pending after a step on another element, or on
    itself. *)
Lemma pending_step (h : heap) (stream : loc) (acc : list loc)
    (trace d s : loc) (v0 : trace_value) (t : loc) (v : trace_value) :
  h !! stream = Some (OStream acc) → h !! trace = Some (OTrace d s) →
  h !! d = Some (OArray v0.1) → h !! s = Some (OStats v0.2) →
  pending stream h t v →
  pending stream (step_heap h stream acc trace s v0) t v.
Proof.
  intros Hstream Ht Hd Hs (Hlt & dt & ht & v' & Htt & Hht & Hv' & Hsim).
  pose proof (step_ready_intro _ _ _ _ _ _ _ Hstream Ht Hs) as Hr.
  split; [done|].
  destruct (decide (t = trace)) as [->|Hne].
  - assert (ht = s) as -> by congruence.
    exists (length h), s, (integral_of v0).
    rewrite step_heap_trace, step_heap_read_input by done.
    split; [done|]. split; [done|]. split; [done|].
    assert (v' = v0) as ->.
    { rewrite (read_trace_intro h trace d s v0) in Hv' by done. congruence. }
    eauto using similar_trans, similar_integral.
  - apply read_trace_inv in Hv' as (dt' & ht' & Htt' & Hdt & Hst).
    assert (dt' = dt ∧ ht' = ht) as [-> ->] by (split; congruence).
    assert (step_heap h stream acc trace s v0 !! t = Some (OTrace dt ht))
      as Htt1 by (apply step_heap_other; congruence).
    assert (step_heap h stream acc trace s v0 !! dt = Some (OArray v'.1))
      as Hdt1 by by eapply step_heap_array.
    destruct (decide (ht = s)) as [->|Hhs].
    + exists dt, s, (v'.1, tagged v0.2).
      split; [done|]. split; [done|]. split.
      * eapply read_trace_intro; [done..|]. by apply step_heap_header.
      * eapply similar_trans; [done|].
        assert (v'.2 = v0.2) as Heq by congruence.
        destruct v' as [ys' st']. simpl in *. subst st'.
        by apply similar_tagged.
    + exists dt, ht, v'. split; [done|]. split; [done|]. split; [|done].
      eapply read_trace_intro; [done..|].
      apply step_heap_other; congruence.
Qed.

Lemma forallb_Forall {A} (f : A → bool) (l : list A) :
  forallb f l = true ↔ Forall (λ x, f x = true) l.
Proof.
  induction l as [|x l IH]; simpl.
  - split; [constructor|done].
  - rewrite andb_true_iff, Forall_cons, IH. done.
Qed.

Lemma separate_cons (h : heap) (t : loc) (ts : list loc) :
  separate h (t :: ts) = true ↔
  Forall (λ t', t' ≠ t ∧ header_loc h t' ≠ header_loc h t) ts ∧
  separate h ts = true.
Proof.
  simpl. rewrite andb_true_iff, forallb_Forall.
  split; intros [Hh Ht]; (split; [|done]);
    (eapply Forall_impl; [done|]); intros t'; simpl;
    by rewrite bool_decide_eq_true.
Qed.

(** The loop on traces that all have samples: it ends normally, whatever
    the traces share, each output is derived from the input at its
    position, and the outputs are separate traces. *)
Lemma for_each_step_ok (stream : loc) (ts : list loc) :
  ∀ (h : heap) (acc : list loc) (ins : list trace_value),
  h !! stream = Some (OStream acc) →
  Forall2 (pending stream h) ts ins →
  Forall (λ v, has_samples v = true) ins →
  ∃ h' outs,
    for_each ts (get_integral_step stream) h = (Ok tt, h') ∧
    h' !! stream = Some (OStream (acc ++ outs)) ∧
    (∀ l o, stream < l → h !! l = Some o → h' !! l = Some o) ∧
    Forall2 (λ o v, ∃ vo, read_trace h' o = Some vo ∧ derived v vo) outs ins ∧
    Forall (fresh_trace (length h) h') outs ∧
    separate h' outs = true.
Proof.
  induction ts as [|trace ts IH]; intros h acc ins Hstream Hpend Hsam.
  - apply Forall2_nil_inv_l in Hpend as ->.
    exists h, []. rewrite app_nil_r. repeat split; auto.
  - apply Forall2_cons_inv_l in Hpend as (v & ins' & Hp & Hpend & ->).
    apply Forall_cons in Hsam as [Hsamv Hsam].
    pose proof Hp as (Hlt & d & s & v' & Ht & Hs & Hv' & Hsim).
    apply read_trace_inv in Hv' as (d' & s' & Ht' & Hd' & Hs').
    assert (d' = d ∧ s' = s) as [-> ->] by (split; congruence).
    pose proof (step_ready_intro _ _ _ _ _ _ _ Hstream Ht Hs') as Hr.
    pose proof (lookup_lt_Some _ _ _ Hstream) as Hbound.
    set (h1 := step_heap h stream acc trace s v').
    destruct (IH h1 (acc ++ [length h + 2]) ins')
      as (h' & outs & Hrun & Hstream' & Hkeep & Houts & Hfresh & Hsepo);
      [by apply step_heap_stream| |done|].
    { eapply Forall2_impl; [done|]. intros t w.
      by apply (pending_step h stream acc trace d s v'). }
    assert (∀ i x, [OArray (integral_of v').1; OStats (integral_of v').2;
                    OTrace (length h) (length h + 1)] !! i = Some x →
                   h' !! (length h + i) = Some x) as Hnew.
    { intros i x Hi. apply Hkeep; [lia|].
      unfold h1. by rewrite step_heap_new. }
    exists h', ((length h + 2) :: outs).
    change (for_each (trace :: ts) (get_integral_step stream))
      with (get_integral_step stream trace;;
            for_each ts (get_integral_step stream)).
    erewrite bind_ok
      by (eapply get_integral_step_ok; eauto using similar_has_samples).
    split; [done|]. split; [by rewrite <- app_assoc in Hstream'|].
    split; [|split; [|split]].
    + intros l o Hl Hlo. apply Hkeep; [done|].
      apply step_heap_other; (done || lia).
    + constructor; [|done]. exists (integral_of v').
      split; [|by apply derived_integral].
      pose proof (Hnew 0 _ eq_refl) as H0. rewrite Nat.add_0_r in H0.
      eapply read_trace_intro; [apply (Hnew 2); reflexivity|done|].
      apply (Hnew 1). reflexivity.
    + constructor.
      * split; [lia|]. exists (length h), (length h + 1).
        split; [apply (Hnew 2); reflexivity|lia].
      * eapply Forall_impl; [done|]. intros o (Ho & od & os & Hod & H1 & H2).
        unfold h1 in *. rewrite step_heap_length in *.
        split; [lia|]. exists od, os. split; [done|lia].
    + apply separate_cons. split; [|done].
      assert (h' !! (length h + 2) = Some (OTrace (length h) (length h + 1)))
        as Hout by (apply (Hnew 2); reflexivity).
      eapply Forall_impl; [exact Hfresh|].
      intros o (Ho & od & os & Hod & H1 & H2).
      unfold h1 in *. rewrite step_heap_length in *.
      split; [lia|]. unfold header_loc. rewrite Hod, Hout.
      intros [= ->]. lia.
Qed.

Lemma separate_ext (h h' : heap) (ts : list loc) :
  (∀ t, t ∈ ts → header_loc h' t = header_loc h t) →
  separate h ts = true → separate h' ts = true.
Proof.
  induction ts as [|t ts IH]; intros Hext; [done|].
  rewrite !separate_cons. intros [Hh Ht]. split.
  - apply Forall_forall. intros t' Hin.
    rewrite Forall_forall in Hh. destruct (Hh t' Hin) as [Hne Hhdr].
    split; [done|]. rewrite !Hext; [done|left|by right].
  - apply IH; [|done]. intros t' Hin. apply Hext. by right.
Qed.

Lemma Forall2_elem_of_l {A B} (P : A → B → Prop) (l : list A) (k : list B)
    (x : A) :
  Forall2 P l k → x ∈ l → ∃ y, P x y.
Proof.
  intros HP. induction HP as [|a b l k Hab HP IH]; intros Hin.
  - by apply elem_of_nil in Hin.
  - apply elem_of_cons in Hin as [->|Hin]; eauto.
Qed.

Lemma Forall2_impl_elem_l {A B} (P Q : A → B → Prop) (l : list A)
    (k : list B) :
  Forall2 P l k → (∀ x y, x ∈ l → P x y → Q x y) → Forall2 Q l k.
Proof.
  intros HP. induction HP as [|a b l k Hab HP IH]; intros HPQ;
    constructor.
  - apply HPQ; [left|done].
  - apply IH. intros x y Hin. apply HPQ. by right.
Qed.

(** The loop on traces that have samples and are separate objects with
    separate headers: each output reads as the integral of the input at its
    position, and so does each input trace after the loop; the two hold the
    same sample array. *)
Lemma for_each_step_exact (stream : loc) (ts : list loc) :
  ∀ (h : heap) (acc : list loc) (ins : list trace_value),
  h !! stream = Some (OStream acc) →
  Forall2 (exact stream h) ts ins →
  Forall (λ v, has_samples v = true) ins →
  separate h ts = true →
  ∃ h' outs,
    for_each ts (get_integral_step stream) h = (Ok tt, h') ∧
    h' !! stream = Some (OStream (acc ++ outs)) ∧
    Forall2 (λ o v, read_trace h' o = Some (integral_of v)) outs ins ∧
    Forall2 (λ t v, read_trace h' t = Some (integral_of v)) ts ins ∧
    Forall2 (shares h') ts outs.
Proof.
  induction ts as [|trace ts IH]; intros h acc ins Hstream Hex Hsam Hsep.
  - apply Forall2_nil_inv_l in Hex as ->.
    exists h, []. rewrite app_nil_r. repeat split; auto.
  - apply Forall2_cons_inv_l in Hex as (v & ins' & Hp & Hex & ->).
    apply Forall_cons in Hsam as [Hsamv Hsam].
    apply separate_cons in Hsep as [Hhead Hsep].
    rewrite Forall_forall in Hhead.
    destruct Hp as (Hlt & (s & Hhdr & Hs_lt) & Hv).
    apply read_trace_inv in Hv as (d & s' & Ht & Hd & Hs).
    assert (s' = s) as ->
      by (unfold header_loc in Hhdr; rewrite Ht in Hhdr; congruence).
    pose proof (step_ready_intro _ _ _ _ _ _ _ Hstream Ht Hs) as Hr.
    pose proof (lookup_lt_Some _ _ _ Hstream) as Hbound.
    set (h1 := step_heap h stream acc trace s v).
    (* what the other traces of the list are in [h] *)
    assert (∀ t', t' ∈ ts → ∃ d' s' v',
              t' < stream ∧ s' < stream ∧ t' ≠ trace ∧ s' ≠ s ∧
              h !! t' = Some (OTrace d' s') ∧
              h !! d' = Some (OArray v'.1) ∧
              h !! s' = Some (OStats v'.2)) as Htail.
    { intros t' Hin.
      destruct (Forall2_elem_of_l _ _ _ _ Hex Hin)
        as (v' & Hlt' & (s1 & Hhdr' & Hs1) & Hv').
      apply read_trace_inv in Hv' as (d' & s' & Ht' & Hd' & Hs').
      assert (s' = s1) as ->
        by (unfold header_loc in Hhdr'; rewrite Ht' in Hhdr'; congruence).
      destruct (Hhead t' Hin) as [Hne Hnh].
      exists d', s1, v'. repeat split; try done. congruence. }
    assert (∀ t', t' ∈ ts → header_loc h1 t' = header_loc h t') as Hsame.
    { intros t' Hin.
      destruct (Htail t' Hin) as (d' & s' & v' & _ & _ & _ & _ & Ht' & _).
      unfold h1. erewrite header_loc_step_eq by done.
      unfold header_loc. by rewrite Ht'. }
    destruct (IH h1 (acc ++ [length h + 2]) ins')
      as (h' & outs & Hrun & Hstream' & Houts & Hins & Hshare);
      [by apply step_heap_stream| |done|by eapply separate_ext|].
    { eapply Forall2_impl_elem_l; [done|].
      intros t' v' Hin (Hlt' & _ & Hv').
      destruct (Htail t' Hin)
        as (d' & s' & w & _ & Hs1 & Hne & Hnh & Ht' & Hd' & Hs').
      split; [done|]. split.
      - exists s'. split; [|done]. rewrite Hsame by done.
        unfold header_loc. by rewrite Ht'.
      - eapply read_trace_preserved; [done|]. intros l o Hl Hlo.
        destruct Hl as [->|[Hl|[ys ->]]].
        + apply step_heap_other; congruence.
        + unfold header_loc in Hl. rewrite Ht' in Hl. injection Hl as <-.
          apply step_heap_other; congruence.
        + by eapply step_heap_array. }
    (* what the rest of the loop keeps of the store after the step *)
    assert (∀ l o, l ≠ stream → l ∉ ts →
              (∀ t', t' ∈ ts → header_loc h t' ≠ Some l) →
              h1 !! l = Some o → h' !! l = Some o) as Hkeep.
    { intros l o Hl1 Hl2 Hl3 Hlo.
      pose proof (for_each_step_keeps stream ts h1 (acc ++ [length h + 2])
                    l o) as Hk.
      rewrite Hrun in Hk. apply Hk; [by apply step_heap_stream|done..| |done].
      intros t' Hin. rewrite Hsame by done. by apply Hl3. }
    assert (∀ i x, [OArray (integral_of v).1; OStats (integral_of v).2;
                    OTrace (length h) (length h + 1)] !! i = Some x →
                   h' !! (length h + i) = Some x) as Hnew.
    { intros i x Hi. apply Hkeep.
      - lia.
      - intros Hin. destruct (Htail _ Hin) as (? & ? & ? & Hb & _). lia.
      - intros t' Hin Hh.
        destruct (Htail _ Hin) as (d' & s' & w & _ & Hb & _ & _ & Ht' & _).
        unfold header_loc in Hh. rewrite Ht' in Hh. injection Hh as ->. lia.
      - unfold h1. by rewrite step_heap_new. }
    pose proof (Hnew 0 _ eq_refl) as H0. rewrite Nat.add_0_r in H0.
    assert (h' !! trace = Some (OTrace (length h) s)) as Ht1.
    { apply Hkeep.
      - by destruct Hr as (_ & _ & _ & Hne & _).
      - intros Hin. by destruct (Htail _ Hin) as (? & ? & ? & _ & _ & Hne & _).
      - intros t' Hin Hh.
        destruct (Htail _ Hin)
          as (d' & s' & w & _ & _ & _ & _ & Ht' & _ & Hs').
        unfold header_loc in Hh. rewrite Ht' in Hh. injection Hh as ->.
        congruence.
      - by apply step_heap_trace. }
    assert (h' !! s = Some (OStats (integral_of v).2)) as Hs1.
    { apply Hkeep.
      - by destruct Hr as (_ & _ & _ & _ & Hne & _).
      - intros Hin.
        destruct (Htail _ Hin) as (? & ? & ? & _ & _ & _ & _ & Ht' & _).
        congruence.
      - intros t' Hin Hh.
        destruct (Htail _ Hin)
          as (d' & s' & w & _ & _ & _ & Hnh & Ht' & _).
        unfold header_loc in Hh. rewrite Ht' in Hh. congruence.
      - by apply step_heap_header. }
    exists h', ((length h + 2) :: outs).
    change (for_each (trace :: ts) (get_integral_step stream))
      with (get_integral_step stream trace;;
            for_each ts (get_integral_step stream)).
    erewrite bind_ok by by eapply get_integral_step_ok.
    split; [done|]. split; [by rewrite <- app_assoc in Hstream'|].
    split; [|split].
    + constructor; [|done].
      eapply read_trace_intro; [apply (Hnew 2); reflexivity|done|].
      apply (Hnew 1). reflexivity.
    + constructor; [|done]. by eapply read_trace_intro.
    + constructor; [|done]. exists (length h), s, (length h + 1).
      split; [done|]. split; [apply (Hnew 2); reflexivity|].
      destruct Hr as (_ & _ & Hb & _). lia.
Qed.

(** ** Running [get_integral] and the constructor *)

Lemma get_integral_run (self : Transform) (h : heap) :
  get_integral self h =
  match (h ++ [OStream []]) !! transform_data self with
  | Some (OStream ts) =>
      match for_each ts (get_integral_step (length h)) (h ++ [OStream []]) with
      | (Ok _, h') => (Ok (length h), h')
      | (Raise e, h') => (Raise e, h')
      end
  | _ => (Raise AttributeError, h ++ [OStream []])
  end.
Proof.
  unfold get_integral. py_unfold. simpl.
  destruct ((h ++ [OStream []]) !! transform_data self)
    as [[ys|st|d s|ts]|]; simpl; done.
Qed.

Lemma Integrate_init_run (src : loc) (d p : option float) (t : option loc)
    (h : heap) :
  Integrate_init src d p t h =
  match get_integral (mkTransform src None None None) h with
  | (Ok r, h') => (Ok (mkIntegrate (mkTransform src None None None) r), h')
  | (Raise e, h') => (Raise e, h')
  end.
Proof.
  unfold Integrate_init, Transform_init. py_unfold. simpl.
  by destruct (get_integral _ h) as [[r|e] h'].
Qed.

Lemma new_stream_lookup (h : heap) :
  (h ++ [OStream []]) !! length h = Some (OStream []).
Proof. by rewrite list_lookup_middle. Qed.

Lemma read_stream_inv (h : heap) (stream : loc) (ins : list trace_value) :
  read_stream h stream = Some ins →
  ∃ ts, h !! stream = Some (OStream ts) ∧
        Forall2 (λ t v, read_trace h t = Some v) ts ins.
Proof.
  unfold read_stream.
  destruct (h !! stream) as [[ys|st|d s|ts]|]; try done.
  intros Hm. exists ts. split; [done|]. by apply mapM_Some_1.
Qed.

Lemma read_trace_app (h k : heap) (trace : loc) (v : trace_value) :
  read_trace h trace = Some v → read_trace (h ++ k) trace = Some v.
Proof.
  intros (d & s & Ht & Hd & Hs)%read_trace_inv.
  eapply read_trace_intro; by apply lookup_app_l_Some.
Qed.

Lemma header_loc_app (h k : heap) (trace : loc) (v : trace_value) :
  read_trace h trace = Some v →
  header_loc (h ++ k) trace = header_loc h trace.
Proof.
  intros (d & s & Ht & Hd & Hs)%read_trace_inv. unfold header_loc.
  by rewrite (lookup_app_l_Some _ _ _ _ Ht), Ht.
Qed.

Lemma read_all (h : heap) (locs : list loc) (ins : list trace_value)
    (R : trace_value → trace_value → Prop) :
  Forall2 (λ o v, ∃ vo, read_trace h o = Some vo ∧ R v vo) locs ins →
  ∃ outs, mapM (read_trace h) locs = Some outs ∧ Forall2 R ins outs.
Proof.
  intros HF. induction HF as [|o v locs ins (vo & Hvo & HR) HF (outs & Hm & IH)].
  - by exists [].
  - exists (vo :: outs). split; [|by constructor].
    apply mapM_Some_2. constructor; [done|]. by apply mapM_Some_1.
Qed.

(** The invocation on a stream of traces that all have samples. *)
Lemma Integrate_init_ok (src : loc) (d p : option float) (t : option loc)
    (h : heap) (ts : list loc) (ins : list trace_value) :
  h !! src = Some (OStream ts) →
  Forall2 (λ t v, read_trace h t = Some v) ts ins →
  traces_have_samples ins = true →
  ∃ self h' locs outs,
    Integrate_init src d p t h = (Ok self, h') ∧
    base self = mkTransform src None None None ∧
    result self = length h ∧
    h' !! length h = Some (OStream locs) ∧
    read_stream h' (length h) = Some outs ∧
    Forall2 derived ins outs ∧
    Forall (fresh_trace (length h) h') locs ∧
    h' !! src = Some (OStream ts) ∧
    (∀ l ys, h !! l = Some (OArray ys) → h' !! l = Some (OArray ys)) ∧
    separate h' locs = true ∧
    (separate h ts = true →
       outs = integral_of <$> ins ∧
       read_stream h' src = Some (integral_of <$> ins) ∧
       Forall2 (shares h') ts locs).
Proof.
  intros Hsrc Hread Hsam%forallb_Forall.
  set (h0 := h ++ [OStream []]).
  assert (Forall2 (exact (length h) h0) ts ins) as Hex.
  { eapply Forall2_impl; [done|]. intros tr v Hv. simpl in Hv.
    pose proof Hv as (dd & s & Ht & Hd & Hs)%read_trace_inv.
    split; [by eapply lookup_lt_Some|]. split.
    - exists s. split; [|by eapply lookup_lt_Some].
      unfold h0. erewrite header_loc_app by done.
      unfold header_loc. by rewrite Ht.
    - by apply read_trace_app. }
  destruct (for_each_step_ok (length h) ts h0 [] ins)
    as (h' & locs & Hrun & Hstream' & Hkeep & Houts & Hfresh & Hsepo);
    [apply new_stream_lookup| |done|].
  { eapply Forall2_impl; [done|].
    intros tr v (Hlt & (s & Hhdr & Hs) & Hv). split; [done|].
    apply header_loc_Some in Hhdr as [dd Ht].
    exists dd, s, v. eauto using similar_refl. }
  destruct (read_all _ _ _ _ Houts) as (outs & Hm & Hder).
  exists (mkIntegrate (mkTransform src None None None) (length h)), h',
    locs, outs.
  rewrite Integrate_init_run, get_integral_run. simpl.
  subst h0. rewrite (lookup_app_l_Some _ _ _ _ Hsrc), Hrun. simpl in Hstream'.
  split; [done|]. split; [done|]. split; [done|]. split; [done|].
  split; [unfold read_stream; by rewrite Hstream'|]. split; [done|].
  split.
  { eapply Forall_impl; [done|]. intros o (Ho & od & os & Hod & H1 & H2).
    rewrite length_app in *. simpl in *.
    split; [lia|]. exists od, os. split; [done|lia]. }
  assert (h' !! src = Some (OStream ts)) as Hsrc'.
  { pose proof (for_each_step_keeps (length h) ts _ [] src (OStream ts)
                  (new_stream_lookup h)) as Hk.
    rewrite Hrun in Hk. apply Hk.
    - apply lookup_lt_Some in Hsrc. lia.
    - intros Hin. destruct (Forall2_elem_of_l _ _ _ _ Hread Hin) as [v Hv].
      apply read_trace_inv in Hv as (? & ? & ? & _). congruence.
    - intros tr Hin Hh.
      destruct (Forall2_elem_of_l _ _ _ _ Hread Hin) as [v Hv].
      erewrite header_loc_app in Hh by done.
      apply read_trace_inv in Hv as (dd & s & Ht & _ & Hs).
      unfold header_loc in Hh. rewrite Ht in Hh. congruence.
    - by apply lookup_app_l_Some. }
  split; [done|]. split.
  { intros l ys Hl.
    pose proof (for_each_step_keeps (length h) ts _ [] l (OArray ys)
                  (new_stream_lookup h)) as Hk.
    rewrite Hrun in Hk. apply Hk.
    - apply lookup_lt_Some in Hl. lia.
    - intros Hin. destruct (Forall2_elem_of_l _ _ _ _ Hread Hin) as [v Hv].
      apply read_trace_inv in Hv as (? & ? & ? & _). congruence.
    - intros tr Hin Hh.
      destruct (Forall2_elem_of_l _ _ _ _ Hread Hin) as [v Hv].
      erewrite header_loc_app in Hh by done.
      apply read_trace_inv in Hv as (dd & s & Ht & _ & Hs).
      unfold header_loc in Hh. rewrite Ht in Hh. congruence.
    - by apply lookup_app_l_Some. }
  split; [done|].
  intros Hsep.
  destruct (for_each_step_exact (length h) ts (h ++ [OStream []]) [] ins)
    as (h2 & locs2 & Hrun2 & Hstream2 & Houts2 & Hins2 & Hshare);
    [apply new_stream_lookup|done|done| |].
  { eapply separate_ext; [|done]. intros tr Hin.
    destruct (Forall2_elem_of_l _ _ _ _ Hread Hin) as [v Hv].
    by eapply header_loc_app. }
  rewrite Hrun in Hrun2. injection Hrun2 as <-.
  simpl in Hstream2. rewrite Hstream' in Hstream2. injection Hstream2 as <-.
  split; [|split; [|done]].
  - apply mapM_Some_1 in Hm.
    assert (mapM (read_trace h') locs = Some (integral_of <$> ins)) as Hm2
      by by apply mapM_Some_2, Forall2_fmap_r.
    apply mapM_Some_2 in Hm. congruence.
  - unfold read_stream. rewrite Hsrc'.
    by apply mapM_Some_2, Forall2_fmap_r.
Qed.

Lemma separate_stream_inv (h : heap) (stream : loc) (ts : list loc) :
  h !! stream = Some (OStream ts) →
  separate_stream h stream = true → separate h ts = true.
Proof. intros Hs. unfold separate_stream. by rewrite Hs. Qed.

Lemma derived_similar (ins outs : list trace_value) :
  Forall2 derived ins outs → Forall2 similar ins outs.
Proof. intros HF. eapply Forall2_impl; [done|]. by intros v o [Hs _]. Qed.

(** ** The contract of [Integrate] *)

(** C1.  For every input stream of traces that have samples, the result
    stream of [Integrate] holds exactly one trace per trace of the input, in
    the order of the input: the output at each position has as many samples
    as the input at that position and its header but for ['units'] and
    ['processing'], and when the traces of the input are separate objects
    with separate headers it is the integral of the input at that
    position. *)
Theorem Integrate_one_trace_per_input (h : heap) (src : loc)
    (d p : option float) (t : option loc) (ins : list trace_value) :
  read_stream h src = Some ins → traces_have_samples ins = true →
  ∃ self h' outs,
    Integrate_init src d p t h = (Ok self, h') ∧
    read_stream h' (result self) = Some outs ∧
    length outs = length ins ∧
    Forall2 similar ins outs ∧
    (separate_stream h src = true →
     ∀ i v, ins !! i = Some v → outs !! i = Some (integral_of v)).
Proof.
  intros (ts & Hsrc & Hread)%read_stream_inv Hsam.
  destruct (Integrate_init_ok src d p t h ts ins Hsrc Hread Hsam)
    as (self & h' & locs & outs & Hrun & _ & Hres & _ & Hout & Hder & _ & _
        & _ & _ & Hsep).
  exists self, h', outs. rewrite Hres.
  split; [done|]. split; [done|].
  split; [symmetry; by eapply Forall2_length|].
  split; [by apply derived_similar|].
  intros Hs%(separate_stream_inv _ _ _ Hsrc) i v Hi.
  destruct (Hsep Hs) as (-> & _). by rewrite list_lookup_fmap, Hi.
Qed.

(** C2.  Whatever the ['units'] entry of an input trace, and also when it
    has none, the ['units'] entry of the corresponding output trace is the
    velocity tag ['veloc']. *)
Theorem Integrate_units_veloc (h : heap) (src : loc)
    (d p : option float) (t : option loc) (ins : list trace_value) :
  read_stream h src = Some ins → traces_have_samples ins = true →
  ∃ self h' outs,
    Integrate_init src d p t h = (Ok self, h') ∧
    read_stream h' (result self) = Some outs ∧
    length outs = length ins ∧
    Forall (λ o, fields o.2 !! units = Some veloc) outs.
Proof.
  intros (ts & Hsrc & Hread)%read_stream_inv Hsam.
  destruct (Integrate_init_ok src d p t h ts ins Hsrc Hread Hsam)
    as (self & h' & locs & outs & Hrun & _ & Hres & _ & Hout & Hder & _).
  exists self, h', outs. rewrite Hres.
  split; [done|]. split; [done|].
  split; [symmetry; by eapply Forall2_length|].
  eapply Forall2_Forall_r; [done|].
  apply Forall_true. by intros v o (_ & _ & Hu).
Qed.

(** C3.  On the stream of one trace with samples 0, 1, 2, 1, 0, sampling
    interval 1.0 and acceleration units, [Integrate] returns a stream of one
    trace with the samples 0, 0.5, 2.0, 3.5, 4.0 (as many as the input has)
    and the units ['veloc']. *)
Theorem Integrate_scenario :
  read_stream scenario 3 =
    Some [([0; 1; 2; 1; 0]%float, mkStats 1%float {[ units := HStr "acc" ]})] ∧
  ∃ self h',
    Integrate_init 3 None None None scenario = (Ok self, h') ∧
    read_stream h' (result self) =
      Some [([0; 0.5; 2; 3.5; 4]%float,
             mkStats 1%float
               (<[units:=veloc]>
                  (<[processing:=processing_entry None]>
                     {[ units := HStr "acc" ]})))] ∧
    fields (mkStats 1%float
              (<[units:=veloc]>
                 (<[processing:=processing_entry None]>
                    {[ units := HStr "acc" ]}))) !! units = Some veloc.
Proof.
  split; [reflexivity|].
  eexists _, _. split; [reflexivity|]. split; reflexivity.
Qed.

(** C4, amended.  For every input trace that has at least one sample, the
    samples of the output trace are as many as the samples of the input
    trace, those of a single sample included, and the output holds 0 at
    index 0. *)
Theorem Integrate_preserves_length (h : heap) (src : loc)
    (d p : option float) (t : option loc) (ins : list trace_value) :
  read_stream h src = Some ins → traces_have_samples ins = true →
  ∃ self h' outs,
    Integrate_init src d p t h = (Ok self, h') ∧
    read_stream h' (result self) = Some outs ∧
    Forall2 (λ v o, length o.1 = length v.1 ∧ o.1 !! 0 = Some 0%float)
      ins outs.
Proof.
  intros (ts & Hsrc & Hread)%read_stream_inv Hsam.
  destruct (Integrate_init_ok src d p t h ts ins Hsrc Hread Hsam)
    as (self & h' & locs & outs & Hrun & _ & Hres & _ & Hout & Hder & _).
  exists self, h', outs. rewrite Hres.
  split; [done|]. split; [done|].
  eapply Forall2_impl; [done|]. by intros v o ((Hlen & _) & H0 & _).
Qed.

(** C5, amended.  Invoking [Integrate] on traces that have samples leaves
    the list of traces of the input stream and the sample arrays that exist
    at the call as they are, and its result is a new stream of new traces
    with new sample arrays and new headers; but it changes the input traces
    in place: when they are separate objects with separate headers, each
    input trace holds after the call a new sample array, the running
    integral, its header has the ['units'] entry ['veloc'] and the
    ['processing'] entry of [trace.integrate()], and the output trace holds
    the same sample array as the input trace it comes from. *)
Theorem Integrate_integrates_in_place (h : heap) (src : loc)
    (d p : option float) (t : option loc) (ins : list trace_value) :
  read_stream h src = Some ins → traces_have_samples ins = true →
  ∃ self h' ts locs,
    Integrate_init src d p t h = (Ok self, h') ∧
    h !! src = Some (OStream ts) ∧ h' !! src = Some (OStream ts) ∧
    (∀ l ys, h !! l = Some (OArray ys) → h' !! l = Some (OArray ys)) ∧
    length h ≤ result self ∧
    h' !! result self = Some (OStream locs) ∧
    Forall (fresh_trace (length h) h') locs ∧
    (separate_stream h src = true →
     read_stream h' src = Some (integral_of <$> ins) ∧
     Forall2 (shares h') ts locs).
Proof.
  intros (ts & Hsrc & Hread)%read_stream_inv Hsam.
  destruct (Integrate_init_ok src d p t h ts ins Hsrc Hread Hsam)
    as (self & h' & locs & outs & Hrun & _ & Hres & Hlocs & _ & _ & Hfresh
        & Hsrc' & Harr & _ & Hex).
  exists self, h', ts, locs. rewrite Hres.
  split; [done|]. split; [done|]. split; [done|]. split; [done|].
  split; [lia|]. split; [done|]. split; [done|].
  intros Hsep%(separate_stream_inv _ _ _ Hsrc).
  by destruct (Hex Hsep) as (_ & Hin & Hshare).
Qed.

(** C6, amended.  The header of each output trace equals the header the
    input trace it comes from had at the call in everything but ['units']
    and ['processing']: the sampling interval and every entry under another
    key (network, station, channel, start time, ...) have the same value. *)
Theorem Integrate_keeps_metadata (h : heap) (src : loc)
    (d p : option float) (t : option loc) (ins : list trace_value) :
  read_stream h src = Some ins → traces_have_samples ins = true →
  ∃ self h' outs,
    Integrate_init src d p t h = (Ok self, h') ∧
    read_stream h' (result self) = Some outs ∧
    Forall2 (λ v o, sampling_interval o.2 = sampling_interval v.2 ∧
                    ∀ key, key ≠ units → key ≠ processing →
                           fields o.2 !! key = fields v.2 !! key) ins outs.
Proof.
  intros (ts & Hsrc & Hread)%read_stream_inv Hsam.
  destruct (Integrate_init_ok src d p t h ts ins Hsrc Hread Hsam)
    as (self & h' & locs & outs & Hrun & _ & Hres & _ & Hout & Hder & _).
  exists self, h', outs. rewrite Hres.
  split; [done|]. split; [done|].
  eapply Forall2_impl; [done|]. by intros v o ((_ & Hdx & Hf) & _).
Qed.

(** C7, amended.  When a trace of the input stream has a non-finite sample
    (NaN or an infinity), invoking [Integrate] does not fail with
    InvalidData: nothing tests the samples, and the invocation returns a
    result stream with one trace per input trace as for any other stream of
    traces that have samples.  The non-finite value spreads: when the traces
    of the input are separate objects, no sample of the output trace from
    the index of the non-finite sample on is finite, index 0 apart (it
    holds 0). *)
Theorem Integrate_non_finite_returns (h : heap) (src : loc)
    (d p : option float) (t : option loc) (ins : list trace_value)
    (k i : nat) (v : trace_value) (y : float) :
  read_stream h src = Some ins → traces_have_samples ins = true →
  ins !! k = Some v → v.1 !! i = Some y → is_finite y = false →
  (Integrate_init src d p t h).1 ≠ Raise InvalidData ∧
  ∃ self h' outs,
    Integrate_init src d p t h = (Ok self, h') ∧
    read_stream h' (result self) = Some outs ∧
    length outs = length ins ∧
    (separate_stream h src = true →
     ∃ o, outs !! k = Some o ∧ length o.1 = length v.1 ∧
          ∀ j z, i ≤ j → 1 ≤ j → o.1 !! j = Some z → is_finite z = false).
Proof.
  intros (ts & Hsrc & Hread)%read_stream_inv Hsam Hk Hi Hy.
  destruct (Integrate_init_ok src d p t h ts ins Hsrc Hread Hsam)
    as (self & h' & locs & outs & Hrun & _ & Hres & _ & Hout & Hder & _ & _
        & _ & _ & Hex).
  split; [by rewrite Hrun|].
  exists self, h', outs. rewrite Hres.
  split; [done|]. split; [done|].
  split; [symmetry; by eapply Forall2_length|].
  intros Hs%(separate_stream_inv _ _ _ Hsrc).
  destruct (Hex Hs) as (-> & _).
  exists (integral_of v). rewrite list_lookup_fmap, Hk.
  split; [done|]. split; [apply cumtrapz_length|].
  intros j z Hij Hj Hz.
  exact (cumtrapz_non_finite (sampling_interval v.2) v.1 i y Hi Hy j z
           Hij Hj Hz).
Qed.

(** C10.  On an input with zero traces [Integrate] raises no error: it
    returns an object whose result is a stream created by the call, holding
    zero traces, and nothing else in the store changes. *)
Theorem Integrate_empty_stream_result (h : heap) (src : loc)
    (d p : option float) (t : option loc) :
  h !! src = Some (OStream []) →
  Integrate_init src d p t h =
    (Ok (mkIntegrate (mkTransform src None None None) (length h)),
     h ++ [OStream []]).
Proof.
  intros Hsrc. rewrite Integrate_init_run, get_integral_run.
  by rewrite (lookup_app_l_Some _ _ _ _ Hsrc).
Qed.

(** C8, amended.  Invoking [Integrate] with an empty input stream (zero
    traces) does not fail, with EmptyInput or otherwise: a result stream is
    produced and it has no trace. *)
Theorem Integrate_empty_stream_succeeds (h : heap) (src : loc)
    (d p : option float) (t : option loc) :
  h !! src = Some (OStream []) →
  ∃ self h',
    Integrate_init src d p t h = (Ok self, h') ∧
    read_stream h' (result self) = Some [] ∧
    ∀ e, (Integrate_init src d p t h).1 ≠ Raise e.
Proof.
  intros Hsrc.
  destruct (Integrate_init_ok src d p t h [] [] Hsrc) as
    (self & h' & locs & outs & Hrun & _ & Hres & _ & Hout & Hder & _);
    [constructor|done|].
  apply Forall2_nil_inv_l in Hder as ->.
  exists self, h'. rewrite Hrun, Hres. done.
Qed.

(** C9.  The outcome of [Integrate] does not depend on [damping], [period]
    and [times]: two invocations on the same input that differ in these
    parameters only give the same object, with the same result stream, and
    the same store. *)
Theorem Integrate_ignores_parameters (h : heap) (src : loc)
    (d1 p1 d2 p2 : option float) (t1 t2 : option loc) :
  Integrate_init src d1 p1 t1 h = Integrate_init src d2 p2 t2 h.
Proof. by rewrite !Integrate_init_run. Qed.

(** ** Further properties of [Integrate] *)

(** When the loop ends normally it has appended one trace per element it
    went through, each a different object made after the loop started. *)
Lemma for_each_step_distinct (stream : loc) (ts : list loc) :
  ∀ (h h' : heap) (acc : list loc),
  h !! stream = Some (OStream acc) →
  for_each ts (get_integral_step stream) h = (Ok tt, h') →
  ∃ outs, h' !! stream = Some (OStream (acc ++ outs)) ∧
          length outs = length ts ∧ NoDup outs ∧
          Forall (λ o, length h ≤ o) outs.
Proof.
  induction ts as [|trace ts IH]; intros h h' acc Hs Hrun.
  - injection Hrun as <-. exists []. rewrite app_nil_r.
    repeat split; [done..|constructor|constructor].
  - change (for_each (trace :: ts) (get_integral_step stream))
      with (get_integral_step stream trace;;
            for_each ts (get_integral_step stream)) in Hrun.
    destruct (get_integral_step_cases h stream trace acc Hs)
      as [Hfail|(d & s & v & Ht & Hd & Hst & Hsam & Hok)].
    { by erewrite bind_raise in Hrun. }
    erewrite bind_ok in Hrun by done.
    pose proof (step_ready_intro _ _ _ _ _ _ _ Hs Ht Hst) as Hr.
    destruct (IH _ _ _ (step_heap_stream h stream acc trace s v Hr) Hrun)
      as (outs & Hs' & Hlen & Hnd & Hge).
    rewrite step_heap_length in Hge.
    exists ((length h + 2) :: outs).
    split; [by rewrite <- app_assoc in Hs'|].
    split; [simpl; by rewrite Hlen|]. split.
    + constructor; [|done]. intros Hin.
      rewrite Forall_forall in Hge. apply Hge in Hin. lia.
    + constructor; [lia|]. eapply Forall_impl; [done|]. simpl. lia.
Qed.

(** X2.  Whenever [Integrate] returns, its result stream lists as many
    traces as the input stream lists elements, and these are pairwise
    different objects, also when the input lists one trace several times. *)
Theorem Integrate_new_trace_per_element (h h' : heap) (src : loc)
    (d p : option float) (t : option loc) (ts : list loc) (self : Integrate) :
  h !! src = Some (OStream ts) →
  Integrate_init src d p t h = (Ok self, h') →
  ∃ outs, h' !! result self = Some (OStream outs) ∧
          length outs = length ts ∧ NoDup outs.
Proof.
  intros Hsrc. rewrite Integrate_init_run, get_integral_run. simpl.
  rewrite (lookup_app_l_Some _ _ _ _ Hsrc).
  destruct (for_each ts _ _) as [[[]|e] h1] eqn:Hrun; [|done].
  intros [= <- <-]. simpl.
  destruct (for_each_step_distinct _ _ _ _ _ (new_stream_lookup h) Hrun)
    as (outs & Hs & Hlen & Hnd & _).
  by exists outs.
Qed.

Lemma for_each_app_ok {A} (xs ys : list A) (body : A → py unit) :
  ∀ (h h1 : heap),
  for_each xs body h = (Ok tt, h1) →
  for_each (xs ++ ys) body h = for_each ys body h1.
Proof.
  induction xs as [|x xs IH]; intros h h1 Hrun.
  - by injection Hrun as <-.
  - change (for_each (x :: xs) body) with (body x;; for_each xs body) in Hrun.
    change (for_each ((x :: xs) ++ ys) body)
      with (body x;; for_each (xs ++ ys) body).
    destruct (body x h) as [[[]|e] h2] eqn:Hx.
    + erewrite bind_ok in Hrun by done. erewrite bind_ok by done. by apply IH.
    + by erewrite bind_raise in Hrun by done.
Qed.

Lemma separate_snoc (h : heap) (ts : list loc) (b : loc) :
  separate h (ts ++ [b]) = true →
  separate h ts = true ∧
  Forall (λ t, b ≠ t ∧ header_loc h b ≠ header_loc h t) ts.
Proof.
  induction ts as [|t ts IH]; [by split|].
  rewrite <- app_comm_cons, !separate_cons.
  intros [Hhead Htail]. destruct (IH Htail) as [Hsep Hb].
  apply Forall_app in Hhead as [Hhead Hbt].
  apply Forall_singleton in Hbt as [Hbt1 Hbt2].
  split; [done|]. by constructor.
Qed.

(** X3.  A failure is not atomic.  When the first trace of the input stream
    that has no sample comes after traces that have samples, [Integrate]
    fails with AttributeError and returns nothing, yet the traces before the
    failing one have been integrated in place and retagged; the failing
    trace, and every object that is neither one of those traces nor one of
    their headers, is as it was, and the elements after the failing trace,
    whatever they are, are not used. *)
Theorem Integrate_fails_after_changing (h : heap) (src : loc)
    (d p : option float) (t : option loc) (ts1 ts2 : list loc) (bad : loc)
    (ins1 : list trace_value) (vb : trace_value) :
  h !! src = Some (OStream (ts1 ++ bad :: ts2)) →
  mapM (read_trace h) ts1 = Some ins1 → traces_have_samples ins1 = true →
  read_trace h bad = Some vb → has_samples vb = false →
  separate h (ts1 ++ [bad]) = true →
  ∃ h',
    Integrate_init src d p t h = (Raise AttributeError, h') ∧
    Forall2 (λ t v, read_trace h' t = Some (integral_of v)) ts1 ins1 ∧
    read_trace h' bad = Some vb ∧
    (∀ l o, l ∉ ts1 → (∀ t, t ∈ ts1 → header_loc h t ≠ Some l) →
            h !! l = Some o → h' !! l = Some o).
Proof.
  intros Hsrc Hread%mapM_Some_1 Hsam%forallb_Forall Hvb Hnone
    (Hsep & Hb)%separate_snoc.
  rewrite Forall_forall in Hb.
  set (h0 := h ++ [OStream []]).
  assert (∀ tr, tr ∈ ts1 → header_loc h0 tr = header_loc h tr) as Hhdr.
  { intros tr Hin. destruct (Forall2_elem_of_l _ _ _ _ Hread Hin) as [v Hv].
    by eapply header_loc_app. }
  destruct (for_each_step_exact (length h) ts1 h0 [] ins1)
    as (h1 & locs & Hrun & _ & _ & Hins & _);
    [apply new_stream_lookup| |done|by eapply separate_ext|].
  { eapply Forall2_impl; [done|]. intros tr v Hv. simpl in Hv.
    pose proof Hv as (dd & s & Ht & Hd & Hs)%read_trace_inv.
    split; [by eapply lookup_lt_Some|]. split.
    - exists s. split; [|by eapply lookup_lt_Some].
      unfold h0. erewrite header_loc_app by done.
      unfold header_loc. by rewrite Ht.
    - by apply read_trace_app. }
  assert (∀ l o, l ∉ ts1 → (∀ tr, tr ∈ ts1 → header_loc h tr ≠ Some l) →
                 h !! l = Some o → h1 !! l = Some o) as Hkeep.
  { intros l o Hl1 Hl2 Hlo.
    pose proof (for_each_step_keeps (length h) ts1 h0 [] l o
                  (new_stream_lookup h)) as Hk.
    rewrite Hrun in Hk. apply Hk.
    - apply lookup_lt_Some in Hlo. lia.
    - done.
    - intros tr Hin. rewrite Hhdr by done. by apply Hl2.
    - by apply lookup_app_l_Some. }
  assert (read_trace h1 bad = Some vb) as Hvb1.
  { pose proof Hvb as (db & sb & Htb & Hdb & Hsb)%read_trace_inv.
    assert (∀ tr, tr ∈ ts1 → ∃ dd s w,
              h !! tr = Some (OTrace dd s) ∧ h !! s = Some (OStats w)) as Hty.
    { intros tr Hin. destruct (Forall2_elem_of_l _ _ _ _ Hread Hin) as [v Hv].
      apply read_trace_inv in Hv as (dd & s & Ht & _ & Hs). eauto. }
    apply (read_trace_intro h1 bad db sb); apply Hkeep; try done.
    - intros Hin. by destruct (Hb _ Hin).
    - intros tr Hin Hh. destruct (Hty _ Hin) as (dd & s & w & Ht & Hs).
      unfold header_loc in Hh. rewrite Ht in Hh. congruence.
    - intros Hin. destruct (Hty _ Hin) as (dd & s & w & Ht & Hs). congruence.
    - intros tr Hin Hh. destruct (Hty _ Hin) as (dd & s & w & Ht & Hs).
      unfold header_loc in Hh. rewrite Ht in Hh. congruence.
    - intros Hin. destruct (Hty _ Hin) as (dd & s & w & Ht & Hs). congruence.
    - intros tr Hin Hh. destruct (Hb _ Hin) as [_ Hne].
      unfold header_loc in Hne at 1. rewrite Htb in Hne. congruence. }
  exists h1. split; [|done].
  rewrite Integrate_init_run, get_integral_run. simpl.
  rewrite (lookup_app_l_Some _ _ _ _ Hsrc).
  fold h0. erewrite for_each_app_ok by done.
  change (for_each (bad :: ts2) (get_integral_step (length h)))
    with (get_integral_step (length h) bad;;
          for_each ts2 (get_integral_step (length h))).
  erewrite bind_raise; [done|].
  apply get_integral_step_fails. congruence.
Qed.

(** X4.  [Integrate] applied to its own result.  After an invocation on a
    stream of traces that have samples, a second invocation on the result
    of the first returns a stream whose traces hold the running integral of
    the samples of the first result, under the ['units'] entry ['veloc']
    again and with the ['processing'] entry rewritten once more; and it
    changes the traces of the first result in place, to these same
    values. *)
Theorem Integrate_twice (h : heap) (src : loc)
    (d p d' p' : option float) (t t' : option loc) (ins : list trace_value) :
  read_stream h src = Some ins → traces_have_samples ins = true →
  ∃ self h1 outs self' h2,
    Integrate_init src d p t h = (Ok self, h1) ∧
    read_stream h1 (result self) = Some outs ∧
    (separate_stream h src = true → outs = integral_of <$> ins) ∧
    Integrate_init (result self) d' p' t' h1 = (Ok self', h2) ∧
    read_stream h2 (result self') = Some (integral_of <$> outs) ∧
    read_stream h2 (result self) = Some (integral_of <$> outs) ∧
    Forall (λ o, fields o.2 !! units = Some veloc) (integral_of <$> outs).
Proof.
  intros (ts & Hsrc & Hread)%read_stream_inv Hsam.
  destruct (Integrate_init_ok src d p t h ts ins Hsrc Hread Hsam)
    as (self & h1 & locs & outs & Hrun & _ & Hres & Hlocs & Hout & Hder & _
        & _ & _ & Hsepo & Hex).
  pose proof Hout as (locs' & Hlocs' & Hread1)%read_stream_inv.
  assert (locs' = locs) as -> by congruence.
  assert (traces_have_samples outs = true) as Hsam1.
  { apply forallb_Forall. apply forallb_Forall in Hsam.
    eapply Forall2_Forall_r; [exact Hder|].
    eapply Forall_impl; [exact Hsam|].
    intros v Hv o [Hs _]. by eapply similar_has_samples. }
  destruct (Integrate_init_ok (length h) d' p' t' h1 locs outs
              Hlocs Hread1 Hsam1)
    as (self' & h2 & locs2 & outs2 & Hrun2 & _ & Hres2 & _ & Hout2 & _ & _
        & _ & _ & _ & Hex2).
  destruct (Hex2 Hsepo) as (-> & Hin2 & _).
  exists self, h1, outs, self', h2. rewrite Hres, Hres2.
  split; [done|]. split; [done|]. split.
  { intros Hs%(separate_stream_inv _ _ _ Hsrc). by destruct (Hex Hs). }
  split; [done|]. split; [done|]. split; [done|].
  apply Forall_fmap, Forall_true. intros o. simpl. apply lookup_insert_eq.
Qed.

End integrate.

(** ** The contract on example stores *)

Lemma Integrate_one_trace_per_input_witness :
  read_stream two_channels 6 = Some two_channels_value ∧
  traces_have_samples two_channels_value = true ∧
  ∃ self h' outs,
    Integrate_init (record_call "integrate") 6 None None None two_channels
      = (Ok self, h') ∧
    read_stream h' (result self) = Some outs ∧
    length outs = length two_channels_value ∧
    Forall2 similar two_channels_value outs ∧
    (separate_stream two_channels 6 = true →
     ∀ i v, two_channels_value !! i = Some v →
            outs !! i = Some (integral_of (record_call "integrate") v)).
Proof.
  split; [reflexivity|]. split; [reflexivity|].
  apply (Integrate_one_trace_per_input (record_call "integrate")
           two_channels 6 None None None two_channels_value); reflexivity.
Defined.

Lemma Integrate_units_veloc_witness :
  read_stream two_channels 6 = Some two_channels_value ∧
  traces_have_samples two_channels_value = true ∧
  ∃ self h' outs,
    Integrate_init (record_call "integrate") 6 (Some 0.25%float)
      (Some 1%float) None two_channels = (Ok self, h') ∧
    read_stream h' (result self) = Some outs ∧
    length outs = length two_channels_value ∧
    Forall (λ o, fields o.2 !! units = Some veloc) outs.
Proof.
  split; [reflexivity|]. split; [reflexivity|].
  apply (Integrate_units_veloc (record_call "integrate") two_channels 6
           (Some 0.25%float) (Some 1%float) None two_channels_value);
    reflexivity.
Defined.

(** C4, as the specification states it, fails: a trace with zero samples
    has no output trace.  [trace.integrate()] returns [None] for it and the
    ['units'] write fails with AttributeError. *)
Lemma Integrate_no_sample_fails :
  read_stream silent 3
    = Some [([], mkStats 1%float {[ units := HStr "acc" ]})] ∧
  Integrate_init (record_call "integrate") 3 None None None silent
    = (Raise AttributeError, silent ++ [OStream []]).
Proof. split; reflexivity. Qed.

Lemma Integrate_preserves_length_witness :
  read_stream two_channels 6 = Some two_channels_value ∧
  traces_have_samples two_channels_value = true ∧
  ∃ self h' outs,
    Integrate_init (record_call "integrate") 6 None None None two_channels
      = (Ok self, h') ∧
    read_stream h' (result self) = Some outs ∧
    Forall2 (λ v o, length o.1 = length v.1 ∧ o.1 !! 0 = Some 0%float)
      two_channels_value outs.
Proof.
  split; [reflexivity|]. split; [reflexivity|].
  apply (Integrate_preserves_length (record_call "integrate") two_channels 6
           None None None two_channels_value); reflexivity.
Defined.

(** C5, as the specification states it, fails: after the invocation the
    trace of the input stream of the scenario holds the integrated samples
    and the ['units'] entry ['veloc'], and the store is not what it was. *)
Lemma Integrate_changes_input :
  read_stream scenario 3
    = Some [([0; 1; 2; 1; 0]%float,
             mkStats 1%float {[ units := HStr "acc" ]})] ∧
  read_stream
    (Integrate_init (record_call "integrate") 3 None None None scenario).2 3
    = Some [([0; 0.5; 2; 3.5; 4]%float,
             mkStats 1%float
               {[ units := veloc; processing := HList ["integrate"] ]})] ∧
  take (length scenario)
    (Integrate_init (record_call "integrate") 3 None None None scenario).2
    ≠ scenario.
Proof. split; [reflexivity|]. split; [reflexivity|]. discriminate. Qed.

Lemma Integrate_integrates_in_place_witness :
  read_stream two_channels 6 = Some two_channels_value ∧
  traces_have_samples two_channels_value = true ∧
  ∃ self h' ts locs,
    Integrate_init (record_call "integrate") 6 None None None two_channels
      = (Ok self, h') ∧
    two_channels !! 6 = Some (OStream ts) ∧ h' !! 6 = Some (OStream ts) ∧
    (∀ l ys, two_channels !! l = Some (OArray ys) →
             h' !! l = Some (OArray ys)) ∧
    length two_channels ≤ result self ∧
    h' !! result self = Some (OStream locs) ∧
    Forall (fresh_trace (length two_channels) h') locs ∧
    (separate_stream two_channels 6 = true →
     read_stream h' 6
       = Some (integral_of (record_call "integrate") <$> two_channels_value) ∧
     Forall2 (shares h') ts locs).
Proof.
  split; [reflexivity|]. split; [reflexivity|].
  apply (Integrate_integrates_in_place (record_call "integrate") two_channels
           6 None None None two_channels_value); reflexivity.
Defined.

(** C6, as the specification states it, fails: the header of the output
    trace of the scenario has a ['processing'] entry, a key other than
    ['units'], and the header of the input trace had none. *)
Lemma Integrate_header_gains_processing :
  read_stream scenario 3
    = Some [([0; 1; 2; 1; 0]%float,
             mkStats 1%float {[ units := HStr "acc" ]})] ∧
  read_stream
    (Integrate_init (record_call "integrate") 3 None None None scenario).2 4
    = Some [([0; 0.5; 2; 3.5; 4]%float,
             mkStats 1%float
               {[ units := veloc; processing := HList ["integrate"] ]})] ∧
  processing ≠ units ∧
  fields (mkStats 1%float
            {[ units := veloc; processing := HList ["integrate"] ]})
    !! processing
  ≠ fields (mkStats 1%float {[ units := HStr "acc" ]}) !! processing.
Proof.
  split; [reflexivity|]. split; [reflexivity|]. split; discriminate.
Qed.

Lemma Integrate_keeps_metadata_witness :
  read_stream two_channels 6 = Some two_channels_value ∧
  traces_have_samples two_channels_value = true ∧
  ∃ self h' outs,
    Integrate_init (record_call "integrate") 6 None None None two_channels
      = (Ok self, h') ∧
    read_stream h' (result self) = Some outs ∧
    Forall2 (λ v o, sampling_interval o.2 = sampling_interval v.2 ∧
                    ∀ key, key ≠ units → key ≠ processing →
                           fields o.2 !! key = fields v.2 !! key)
      two_channels_value outs.
Proof.
  split; [reflexivity|]. split; [reflexivity|].
  apply (Integrate_keeps_metadata (record_call "integrate") two_channels 6
           None None None two_channels_value); reflexivity.
Defined.

(** C7, as the specification states it, fails: on the stream whose second
    trace has a NaN sample the invocation returns, and the NaN spreads over
    the rest of the output trace. *)
Lemma Integrate_non_finite_spreads :
  read_stream gapped 6 = Some gapped_value ∧
  is_finite nan = false ∧
  Integrate_init (record_call "integrate") 6 None None None gapped
    = (Ok (mkIntegrate (mkTransform 6 None None None) 7),
       (Integrate_init (record_call "integrate") 6 None None None gapped).2) ∧
  read_stream
    (Integrate_init (record_call "integrate") 6 None None None gapped).2 7
    = Some [([0; 0.5]%float,
             mkStats 1%float
               {[ units := veloc; processing := HList ["integrate"] ]});
            ([0; nan; nan]%float,
             mkStats 1%float
               {[ units := veloc; processing := HList ["integrate"] ]})] ∧
  ¬ ∃ h', Integrate_init (record_call "integrate") 6 None None None gapped
          = (Raise InvalidData, h').
Proof.
  split; [reflexivity|]. split; [reflexivity|]. split; [reflexivity|].
  split; [reflexivity|]. by intros [h' Hrun].
Qed.

Lemma Integrate_non_finite_returns_witness :
  read_stream gapped 6 = Some gapped_value ∧
  traces_have_samples gapped_value = true ∧
  is_finite nan = false ∧
  (Integrate_init (record_call "integrate") 6 None None None gapped).1
    ≠ Raise InvalidData ∧
  ∃ self h' outs,
    Integrate_init (record_call "integrate") 6 None None None gapped
      = (Ok self, h') ∧
    read_stream h' (result self) = Some outs ∧
    length outs = length gapped_value ∧
    (separate_stream gapped 6 = true →
     ∃ o, outs !! 1 = Some o ∧ length o.1 = 3 ∧
          ∀ j z, 1 ≤ j → 1 ≤ j → o.1 !! j = Some z → is_finite z = false).
Proof.
  split; [reflexivity|]. split; [reflexivity|]. split; [reflexivity|].
  apply (Integrate_non_finite_returns (record_call "integrate") gapped 6
           None None None gapped_value 1 1
           ([1; nan; 3]%float, mkStats 1%float {[ units := HStr "acc" ]}) nan);
    reflexivity.
Defined.

(** C8, as the specification states it, fails: on a stream with no trace
    [Integrate] returns an object whose result is a new stream with no
    trace; it does not fail with EmptyInput. *)
Lemma Integrate_empty_stream_not_EmptyInput :
  empty_stream !! 0 = Some (OStream []) ∧
  Integrate_init (record_call "integrate") 0 None None None empty_stream =
    (Ok (mkIntegrate (mkTransform 0 None None None) 1),
     [OStream []; OStream []]) ∧
  ¬ ∃ h', Integrate_init (record_call "integrate") 0 None None None
            empty_stream = (Raise EmptyInput, h').
Proof.
  split; [reflexivity|]. split; [reflexivity|]. by intros [h' Hrun].
Qed.

Lemma Integrate_empty_stream_succeeds_witness :
  empty_stream !! 0 = Some (OStream []) ∧
  ∃ self h',
    Integrate_init (record_call "integrate") 0 None None None empty_stream
      = (Ok self, h') ∧
    read_stream h' (result self) = Some [] ∧
    ∀ e, (Integrate_init (record_call "integrate") 0 None None None
            empty_stream).1 ≠ Raise e.
Proof.
  split; [reflexivity|].
  apply (Integrate_empty_stream_succeeds (record_call "integrate")
           empty_stream 0 None None None).
  reflexivity.
Defined.

Lemma Integrate_empty_stream_result_witness :
  empty_stream !! 0 = Some (OStream []) ∧
  Integrate_init (record_call "integrate") 0 None None None empty_stream =
    (Ok (mkIntegrate (mkTransform 0 None None None) (length empty_stream)),
     empty_stream ++ [OStream []]).
Proof.
  split; [reflexivity|].
  apply (Integrate_empty_stream_result (record_call "integrate")
           empty_stream 0 None None None).
  reflexivity.
Defined.

Lemma Integrate_new_trace_per_element_witness :
  repeated !! 3 = Some (OStream [2; 2]) ∧
  ∃ outs,
    (Integrate_init (record_call "integrate") 3 None None None repeated).2
      !! 4 = Some (OStream outs) ∧
    length outs = 2 ∧ NoDup outs.
Proof.
  split; [reflexivity|].
  apply (Integrate_new_trace_per_element (record_call "integrate") repeated
           (Integrate_init (record_call "integrate") 3 None None None
              repeated).2
           3 None None None [2; 2]
           (mkIntegrate (mkTransform 3 None None None) 4));
    reflexivity.
Defined.

Lemma Integrate_fails_after_changing_witness :
  late_silence !! 9 = Some (OStream ([2] ++ 5 :: [8])) ∧
  mapM (read_trace late_silence) [2]
    = Some [([0; 1]%float, mkStats 1%float {[ units := HStr "acc" ]})] ∧
  read_trace late_silence 5
    = Some ([], mkStats 1%float {[ units := HStr "acc" ]}) ∧
  separate late_silence ([2] ++ [5]) = true ∧
  ∃ h',
    Integrate_init (record_call "integrate") 9 None None None late_silence
      = (Raise AttributeError, h') ∧
    Forall2 (λ t v, read_trace h' t
                    = Some (integral_of (record_call "integrate") v))
      [2] [([0; 1]%float, mkStats 1%float {[ units := HStr "acc" ]})] ∧
    read_trace h' 5 = Some ([], mkStats 1%float {[ units := HStr "acc" ]}) ∧
    (∀ l o, l ∉ [2] →
            (∀ t, t ∈ [2] → header_loc late_silence t ≠ Some l) →
            late_silence !! l = Some o → h' !! l = Some o).
Proof.
  split; [reflexivity|]. split; [reflexivity|]. split; [reflexivity|].
  split; [reflexivity|].
  apply (Integrate_fails_after_changing (record_call "integrate")
           late_silence 9 None None None [2] [8] 5
           [([0; 1]%float, mkStats 1%float {[ units := HStr "acc" ]})]
           ([], mkStats 1%float {[ units := HStr "acc" ]})); reflexivity.
Defined.

Lemma Integrate_twice_witness :
  read_stream two_channels 6 = Some two_channels_value ∧
  traces_have_samples two_channels_value = true ∧
  ∃ self h1 outs self' h2,
    Integrate_init (record_call "integrate") 6 None None None two_channels
      = (Ok self, h1) ∧
    read_stream h1 (result self) = Some outs ∧
    (separate_stream two_channels 6 = true →
     outs = integral_of (record_call "integrate") <$> two_channels_value) ∧
    Integrate_init (record_call "integrate") (result self) None None None h1
      = (Ok self', h2) ∧
    read_stream h2 (result self')
      = Some (integral_of (record_call "integrate") <$> outs) ∧
    read_stream h2 (result self)
      = Some (integral_of (record_call "integrate") <$> outs) ∧
    Forall (λ o, fields o.2 !! units = Some veloc)
      (integral_of (record_call "integrate") <$> outs).
Proof.
  split; [reflexivity|]. split; [reflexivity|].
  apply (Integrate_twice (record_call "integrate") two_channels 6
           None None None None None None two_channels_value); reflexivity.
Defined.
